(** * telegram_export_md: a shallow embedding and its verified properties

    The development follows [src/telegram_export_md.py]:

    - [parse_channel_identifier]: the channel-identifier normalizer;
    - [ensure_joined]: entity resolution with an optional best-effort join;
    - [export_channel_messages]: the streaming export pipeline.

    Python strings are sequences of Unicode code points, so a string is a
    list of code points here ([list N]); [str] embeds a literal. *)

From Stdlib Require Import String Ascii.
From stdpp Require Import base numbers list option gmap pretty.

Set Default Proof Using "Type".
Local Open Scope N_scope.
Local Open Scope list_scope.

(** ** Python strings *)

Abbreviation pystr := (list N).

(** A literal: each character of the literal is its code point. *)
Definition str (s : string) : pystr :=
  N_of_ascii <$> list_ascii_of_string s.

Arguments str : simpl never.

Definition LF : N := 10.
Definition AT : N := 64.

(** [bool(s)] for a string: only the empty string is falsy. *)
Definition truthy (s : pystr) : bool :=
  match s with [] => false | _ :: _ => true end.

(** [str.isspace] on one code point: the code points CPython's
    [Py_UNICODE_ISSPACE] accepts, which are the ones [str.strip()] removes. *)
Definition isspace (c : N) : bool :=
  ((9 <=? c) && (c <=? 13)) || ((28 <=? c) && (c <=? 32))
  || (c =? 133) || (c =? 160) || (c =? 5760)
  || ((8192 <=? c) && (c <=? 8202))
  || (c =? 8232) || (c =? 8233) || (c =? 8239) || (c =? 8287)
  || (c =? 12288).

Fixpoint drop_while {A} (p : A → bool) (l : list A) : list A :=
  match l with
  | [] => []
  | x :: l' => if p x then drop_while p l' else l
  end.

Fixpoint take_while {A} (p : A → bool) (l : list A) : list A :=
  match l with
  | [] => []
  | x :: l' => if p x then x :: take_while p l' else []
  end.

(** [s.lstrip()], [s.rstrip()], [s.strip()] *)
Definition lstrip (s : pystr) : pystr := drop_while isspace s.
Definition rstrip (s : pystr) : pystr := reverse (drop_while isspace (reverse s)).
Definition strip (s : pystr) : pystr := rstrip (lstrip s).

(** [s.startswith(p)], as the remainder after [p] when [s] starts with it. *)
Fixpoint strip_prefix (p s : pystr) : option pystr :=
  match p, s with
  | [], _ => Some s
  | _ :: _, [] => None
  | a :: p', b :: s' => if a =? b then strip_prefix p' s' else None
  end.

Definition startswith (s p : pystr) : bool :=
  match strip_prefix p s with
  | Some _ => true
  | None => false
  end.

(** ** The normalizer *)

(** [re.match(r"https?://t\.me/(.+)", raw)], returning [m.group(1)].
    [re.match] anchors at the start only. The pieces of the pattern:
    the literal [http], an optional [s] (greedy, with backtracking), the
    literal [://t.me/], and the group [(.+)]: one or more characters other
    than the line feed, as many as possible; nothing follows the group, so
    the longest run is the match. *)
Definition re_group_dot_plus (s : pystr) : option pystr :=
  let g := take_while (λ c, negb (c =? LF)) s in
  if truthy g then Some g else None.

Definition re_after_scheme (s : pystr) : option pystr :=
  strip_prefix (str "://t.me/") s ≫= re_group_dot_plus.

Definition re_match_tme (raw : pystr) : option pystr :=
  rest ← strip_prefix (str "http") raw;
  match strip_prefix (str "s") rest with
  | Some rest' =>
      match re_after_scheme rest' with
      | Some g => Some g
      | None => re_after_scheme rest
      end
  | None => re_after_scheme rest
  end.

Definition parse_channel_identifier (raw : pystr) : pystr :=
  let raw := strip raw in
  match re_match_tme raw with
  | Some g => g
  | None =>
      if startswith raw (str "@") then drop 1 raw else raw
  end.

(** A string contains a URL scheme when the scheme separator [://] occurs
    in it; it has a leading [@] when it starts with that character. *)
Fixpoint contains (p s : pystr) : bool :=
  match s with
  | [] => match p with [] => true | _ :: _ => false end
  | _ :: s' => startswith s p || contains p s'
  end.

Definition contains_scheme (s : pystr) : bool := contains (str "://") s.
Definition has_leading_at (s : pystr) : bool := startswith s (str "@").

(** The surface forms of one logical channel [name]. *)
Definition surface_forms (name : pystr) : list pystr :=
  [ name; str "@" ++ name; str "https://t.me/" ++ name; str "http://t.me/" ++ name ].

(** [t] is one of the accepted surface forms of [name]; behind the URL
    prefix the name has to start with a character the group [(.+)] takes. *)
Definition is_surface_form (t name : pystr) : Prop :=
  t = name ∨ t = str "@" ++ name ∨
  ((t = str "https://t.me/" ++ name ∨ t = str "http://t.me/" ++ name)
   ∧ ∃ c, head name = Some c ∧ c ≠ LF).

(** ** Formatting

    [str(n)] for an integer, the zero-padded fields of [%0wd], and
    [datetime.isoformat()] with its default separator and time spec:
    [YYYY-MM-DDTHH:MM:SS], the microseconds when they are not zero, and the
    UTC offset when the value is time-zone aware. *)

Definition str_of_Z (n : Z) : pystr := str (pretty n).

Definition fmt_d (width : nat) (n : N) : pystr :=
  let d := str (pretty n) in
  replicate (width - length d) 48 ++ d.

Record datetime := {
  dt_year : N; dt_month : N; dt_day : N;
  dt_hour : N; dt_minute : N; dt_second : N; dt_microsecond : N;
  dt_utcoffset : option Z   (* microseconds east of UTC; [None]: naive *)
}.

Definition format_time (hh mm ss us : N) : pystr :=
  fmt_d 2 hh ++ str ":" ++ fmt_d 2 mm ++ str ":" ++ fmt_d 2 ss
  ++ (if us =? 0 then [] else str "." ++ fmt_d 6 us).

Definition format_offset (off : option Z) : pystr :=
  match off with
  | None => []
  | Some off =>
      let sign := if (off <? 0)%Z then str "-" else str "+" in
      let a := Z.to_N (Z.abs off) in
      let hh := a `div` 3600000000 in
      let r := a `mod` 3600000000 in
      let mm := r `div` 60000000 in
      let ss := r `mod` 60000000 in
      sign ++ fmt_d 2 hh ++ str ":" ++ fmt_d 2 mm
      ++ (if ss =? 0 then []
          else str ":" ++ fmt_d 2 (ss `div` 1000000)
               ++ (if ss `mod` 1000000 =? 0 then []
                   else str "." ++ fmt_d 6 (ss `mod` 1000000)))
  end.

Definition isoformat (d : datetime) : pystr :=
  fmt_d 4 (dt_year d) ++ str "-" ++ fmt_d 2 (dt_month d) ++ str "-"
  ++ fmt_d 2 (dt_day d) ++ str "T"
  ++ format_time (dt_hour d) (dt_minute d) (dt_second d) (dt_microsecond d)
  ++ format_offset (dt_utcoffset d).

(** ** Messages and the provider *)

(** A message of the history. [msg_message] is [None] for Python's [None];
    [msg_caption] is [None] when the attribute is absent or [None], which
    [getattr(msg, "caption", None)] does not tell apart. *)
Record Message := {
  msg_id : Z;
  msg_date : datetime;
  msg_message : option pystr;
  msg_caption : option pystr
}.

(** The opaque handle the provider returns for a resolved channel. *)
Inductive entity := Entity (peer : Z).

(** The exceptions that can travel through the program. The first three
    derive from [BaseException] only; all others derive from [Exception]. *)
Inductive exn :=
| SystemExit (msg : pystr)
| KeyboardInterrupt
| CancelledError
| ValueError
| OSError
| UserAlreadyParticipantError
| ChannelPrivateError
| UserBannedInChannelError
| InviteRequestSentError
| FloodWaitError (seconds : Z)
| RPCError (name : pystr)
| ConnectionError
| UnicodeEncodeError
| OperationalError
| DatabaseError.

Definition is_Exception (e : exn) : bool :=
  match e with
  | SystemExit _ | KeyboardInterrupt | CancelledError => false
  | _ => true
  end.

Definition is_UserAlreadyParticipantError (e : exn) : bool :=
  match e with UserAlreadyParticipantError => true | _ => false end.

(** The calls the program makes to the provider. *)
Inductive net_call :=
| NetStart (session : pystr) (api_id : Z) (api_hash : pystr)
| NetGetEntity (channel : pystr)
| NetJoin (e : entity)
| NetIterMessages (e : entity)
| NetDisconnect.

(** What the client capability answers: the session start-up, the entity
    lookup, the join request, and the history of an entity as the finite
    sequence of messages it yields followed by how the iteration ends
    ([None]: exhausted; [Some e]: the next fetch raises [e]).

    The client library keeps the session in a database file of its own:
    [tg_session_file] is where the session of a given name is stored
    ([None]: in memory only); [tg_session_open] is the error with which the
    library refuses a file of the given content as its database, if it
    does ([None] for the content: there is no file yet); and
    [tg_session_db] is what the file holds once the library has saved it,
    given what it held before and the calls made so far. What is in the
    file is the library's business; the program never reads it. *)
Record Telegram := {
  tg_start : option exn;
  tg_get_entity : pystr → exn + entity;
  tg_join : entity → option exn;
  tg_iter_messages : entity → list Message * option exn;
  tg_session_file : pystr → option (list pystr);
  tg_session_open : option pystr → option exn;
  tg_session_db : option pystr → list net_call → pystr
}.

(** ** The world the program runs in *)

(** A path is the list of its components, each a name the file system
    takes; among them are names with a byte that is no UTF-8, which Python
    holds as a lone surrogate U+DC80 to U+DCFF. *)
Abbreviation path := (list pystr).

(** A node of the file system. The content of a file is the text written
    to it: the bytes are its UTF-8 encoding, and the buffering of the text
    layer lies below this model, which sees the file as it is once the sink
    is closed. *)
Inductive node := Dir | File (content : pystr).

(** A file object returned by [open]: where it writes, the arguments of
    its [write] calls so far (oldest first), and whether it is closed. *)
Record Sink := {
  sink_path : path;
  sink_writes : list pystr;
  sink_closed : bool
}.

Record World := {
  environ : gmap pystr pystr;   (* os.environ *)
  fs : gmap path node;          (* the file system below the root *)
  sinks : list Sink;            (* file objects, in creation order *)
  net : list net_call;          (* calls made to the provider, oldest first *)
  stdout : list pystr           (* printed lines, oldest first *)
}.

Definition set_fs (f : gmap path node → gmap path node) (w : World) : World :=
  {| environ := environ w; fs := f (fs w); sinks := sinks w; net := net w; stdout := stdout w |}.
Definition set_sinks (f : list Sink → list Sink) (w : World) : World :=
  {| environ := environ w; fs := fs w; sinks := f (sinks w); net := net w; stdout := stdout w |}.
Definition log_net (c : net_call) (w : World) : World :=
  {| environ := environ w; fs := fs w; sinks := sinks w; net := net w ++ [c]; stdout := stdout w |}.
Definition log_stdout (l : pystr) (w : World) : World :=
  {| environ := environ w; fs := fs w; sinks := sinks w; net := net w; stdout := stdout w ++ [l] |}.

(** ** Computations: state passing with exceptions *)

Inductive result (A : Type) :=
| Ok (a : A)
| Raise (e : exn).
Arguments Ok {A} a.
Arguments Raise {A} e.

Definition M (A : Type) : Type := World → result A * World.

#[export] Instance M_ret : MRet M := λ A a w, (Ok a, w).
#[export] Instance M_bind : MBind M := λ A B f m w,
  match m w with
  | (Ok a, w') => f a w'
  | (Raise e, w') => (Raise e, w')
  end.

Definition raise {A} (e : exn) : M A := λ w, (Raise e, w).
Definition modify (f : World → World) : M unit := λ w, (Ok tt, f w).
Definition gets {A} (f : World → A) : M A := λ w, (Ok (f w), w).
Definition lift {A} (r : result A) : M A := λ w, (r, w).

(** [try: body except <classes matched by handles>: pass] *)
Definition try_pass (handles : exn → bool) (body : M unit) : M unit := λ w,
  match body w with
  | (Ok tt, w') => (Ok tt, w')
  | (Raise e, w') => if handles e then (Ok tt, w') else (Raise e, w')
  end.

(** [with <acquire> as x: body], releasing on every exit of the body. *)
Definition with_resource {R A} (acquire : M R) (release : R → M unit) (body : R → M A) : M A :=
  r ← acquire;
  λ w, match body r w with
       | (Ok a, w') => (x ← release r; mret a) w'
       | (Raise e, w') => (release r ;; raise e) w'
       end.

(** ** Files, standard output, environment *)

(** [p.parent]; the empty path is the current directory, its own parent. *)
Definition parent (p : path) : path := take (length p - 1) p.

(** [str(p)] *)
Definition path_str (p : path) : pystr :=
  match p with
  | [] => str "."
  | c :: cs => foldl (λ acc x, acc ++ str "/" ++ x) c cs
  end.

Definition is_dir (t : gmap path node) (p : path) : bool :=
  match p with
  | [] => true
  | _ => match t !! p with Some Dir => true | _ => false end
  end.

(** [d.mkdir(parents=True, exist_ok=True)]: every missing directory on the
    way to [d] is created; a file in the way raises and nothing is made. *)
Fixpoint mkdir_from (base rest : path) (t : gmap path node) : option (gmap path node) :=
  match rest with
  | [] => Some t
  | c :: rest' =>
      let d := base ++ [c] in
      match t !! d with
      | None => mkdir_from d rest' (<[d:=Dir]> t)
      | Some Dir => mkdir_from d rest' t
      | Some (File _) => None
      end
  end.

Definition mkdir_parents (d : path) : M unit := λ w,
  match mkdir_from [] d (fs w) with
  | Some t => (Ok tt, set_fs (λ _, t) w)
  | None => (Raise OSError, w)
  end.

(** [p.open("w", encoding="utf-8")]: the file is created or truncated. *)
Definition open_w (p : path) : M nat := λ w,
  if is_dir (fs w) p then (Raise OSError, w)
  else if negb (is_dir (fs w) (parent p)) then (Raise OSError, w)
  else
    let k := {| sink_path := p; sink_writes := []; sink_closed := false |} in
    (Ok (length (sinks w)), set_sinks (λ l, l ++ [k]) (set_fs <[p:=File []]> w)).

(** A string the UTF-8 codec takes: no code point is a lone surrogate (and
    none lies beyond U+10FFFF, which a Python string cannot hold). *)
Definition encodable_char (c : N) : bool :=
  (c <? 55296) || ((57343 <? c) && (c <=? 1114111)).

Definition encodable (s : pystr) : bool := forallb encodable_char s.

Definition append_content (s : pystr) (n : node) : node :=
  match n with
  | File c => File (c ++ s)
  | Dir => Dir
  end.

(** [f.write(s)] on the file opened with [encoding="utf-8"]: the string is
    encoded when it is written, and one that cannot be encoded raises
    [UnicodeEncodeError] with nothing of it written. *)
Definition file_write (f : nat) (s : pystr) : M unit := λ w,
  match sinks w !! f with
  | Some k =>
      if sink_closed k then (Raise ValueError, w)
      else if negb (encodable s) then (Raise UnicodeEncodeError, w)
      else
        let k' := {| sink_path := sink_path k;
                     sink_writes := sink_writes k ++ [s];
                     sink_closed := false |} in
        (Ok tt, set_sinks <[f:=k']> (set_fs (alter (append_content s) (sink_path k)) w))
  | None => (Raise ValueError, w)
  end.

(** [f.close()], what leaving the [with] block does. *)
Definition file_close (f : nat) : M unit :=
  modify (set_sinks (λ l,
    match l !! f with
    | Some k => <[f:={| sink_path := sink_path k;
                        sink_writes := sink_writes k;
                        sink_closed := true |}]> l
    | None => l
    end)).

(** [print(line)], with standard output taken to be a UTF-8 stream with the
    strict error handler, as the output file is: a line that cannot be
    encoded raises [UnicodeEncodeError] and is not printed. *)
Definition print (line : pystr) : M unit := λ w,
  if encodable line then (Ok tt, log_stdout line w)
  else (Raise UnicodeEncodeError, w).

(** [os.environ.get(k)] and [os.environ.get(k, d)] *)
Definition environ_get (k : pystr) : M (option pystr) := gets (λ w, environ w !! k).
Definition environ_get_default (k d : pystr) : M pystr := gets (λ w, default d (environ w !! k)).

(** ** The client capability *)

Definition of_sum {A} (r : exn + A) : result A :=
  match r with
  | inl e => Raise e
  | inr a => Ok a
  end.

Definition of_outcome (o : option exn) : result unit :=
  match o with
  | Some e => Raise e
  | None => Ok tt
  end.

Definition file_content (t : gmap path node) (p : path) : option pystr :=
  match t !! p with
  | Some (File c) => Some c
  | _ => None
  end.

(** The library saves the session: its database file, if the session has
    one, holds what the library puts there. *)
Definition session_save (tg : Telegram) (session : pystr) (w : World) : World :=
  match tg_session_file tg session with
  | Some sp =>
      set_fs <[sp:=File (tg_session_db tg (file_content (fs w) sp) (net w))]> w
  | None => w
  end.

(** [TelegramClient(session, api_id, api_hash)]: the constructor opens the
    session database, creating the file when it is not there; a file that
    cannot be opened (a directory in its place, no directory to hold it)
    raises [OperationalError], and a file that is there but is not a
    database of the library raises the library's error. Nothing is sent to
    the provider yet. *)
Definition client_new (tg : Telegram) (session : pystr) : M unit := λ w,
  match tg_session_file tg session with
  | Some sp =>
      if is_dir (fs w) sp || negb (is_dir (fs w) (parent sp))
      then (Raise OperationalError, w)
      else
        match tg_session_open tg (file_content (fs w) sp) with
        | Some x => (Raise x, w)
        | None => (Ok tt, session_save tg session w)
        end
  | None => (Ok tt, w)
  end.

(** Entering [async with client]: the session is started, and saved once
    it is. *)
Definition client_start (tg : Telegram) (session : pystr) (api_id : Z) (api_hash : pystr) : M unit :=
  modify (log_net (NetStart session api_id api_hash)) ;;
  lift (of_outcome (tg_start tg)) ;;
  modify (session_save tg session).

(** Leaving [async with client]: the client disconnects and saves the
    session. *)
Definition client_disconnect (tg : Telegram) (session : pystr) : M unit :=
  modify (log_net NetDisconnect) ;; modify (session_save tg session).

Definition client_get_entity (tg : Telegram) (channel : pystr) : M entity :=
  modify (log_net (NetGetEntity channel)) ;; lift (of_sum (tg_get_entity tg channel)).

Definition client_join (tg : Telegram) (e : entity) : M unit :=
  modify (log_net (NetJoin e)) ;; lift (of_outcome (tg_join tg e)).

Definition client_iter_messages (tg : Telegram) (e : entity) : M (list Message * option exn) :=
  modify (log_net (NetIterMessages e)) ;; mret (tg_iter_messages tg e).

(** ** The program *)

Definition ensure_joined (tg : Telegram) (channel : pystr) (try_join : bool) : M entity :=
  entity ← client_get_entity tg channel;
  (if try_join then
     try_pass (λ e, is_UserAlreadyParticipantError e || is_Exception e)
              (client_join tg entity)
   else mret tt) ;;
  mret entity.

(** [x or ""] for an optional string, and [bool(x)] for it. *)
Definition or_empty (o : option pystr) : pystr := default [] o.
Definition truthy_opt (o : option pystr) : bool :=
  match o with
  | Some s => truthy s
  | None => false
  end.

(** The text of a message after the fallback to its caption. *)
Definition message_text (msg : Message) : pystr :=
  let text := or_empty (msg_message msg) in
  if negb (truthy text) then
    if truthy_opt (msg_caption msg) then or_empty (msg_caption msg) else text
  else text.

Definition meta_line (msg : Message) : pystr :=
  str "[id:" ++ str_of_Z (msg_id msg) ++ str " | date:" ++ isoformat (msg_date msg) ++ str "]".

Definition progress_line (count : Z) : pystr :=
  str "Wrote " ++ str_of_Z count ++ str " messages so far" ++ [8230].

Definition done_line (count : Z) (output_path : path) : pystr :=
  str "Done. Wrote " ++ str_of_Z count ++ str " messages to " ++ path_str output_path.

(** One turn of the [async for] body; the result is the new [count]. *)
Definition export_message (f : nat) (separator : pystr) (include_meta : bool)
    (msg : Message) (count : Z) : M Z :=
  let text := message_text msg in
  if negb (truthy text) then mret count
  else
    (if include_meta then file_write f (meta_line msg ++ [LF])
     else mret tt) ;;
    file_write f text ;;
    file_write f separator ;;
    let count := (count + 1)%Z in
    (if (count `mod` 500 =? 0)%Z then print (progress_line count) else mret tt) ;;
    mret count.

Fixpoint export_loop (f : nat) (separator : pystr) (include_meta : bool)
    (msgs : list Message) (count : Z) : M Z :=
  match msgs with
  | [] => mret count
  | msg :: rest =>
      count' ← export_message f separator include_meta msg count;
      export_loop f separator include_meta rest count'
  end.

(** Lines 66 to 87, the export pipeline for a resolved channel: the sink is
    opened, the history is consumed message by message until the iteration
    ends or raises, the sink is closed on either exit, and the final count
    is reported after a normal end. *)
Definition export_pipeline (tg : Telegram) (entity : entity) (output_path : path)
    (separator : pystr) (include_meta : bool) : M unit :=
  count ← with_resource (open_w output_path) file_close (λ f,
    history ← client_iter_messages tg entity;
    count ← export_loop f separator include_meta history.1 0%Z;
    lift (of_outcome history.2) ;;
    mret count);
  print (done_line count output_path).

Definition missing_credentials : pystr :=
  str "Missing TELEGRAM_API_ID/TELEGRAM_API_HASH env vars. Get them from https://my.telegram.org".

Section Program.
Context (py_int : pystr → option Z).

(** [int(s)]: [py_int] is Python's conversion, [None] where it raises. *)
Definition int_of (s : pystr) : M Z :=
  lift (match py_int s with Some n => Ok n | None => Raise ValueError end).

Definition export_channel_messages (tg : Telegram) (channel : pystr) (output_path : path)
    (separator : pystr) (include_meta try_join : bool) : M unit :=
  api_id ← environ_get_default (str "TELEGRAM_API_ID") (str "0") ≫= int_of;
  api_hash ← environ_get (str "TELEGRAM_API_HASH");
  session ← environ_get_default (str "TELEGRAM_SESSION") (str "telegram_session");
  if (api_id =? 0)%Z || negb (truthy_opt api_hash) then
    raise (SystemExit missing_credentials)
  else
    let channel_norm := parse_channel_identifier channel in
    mkdir_parents (parent output_path) ;;
    with_resource (client_new tg session ;;
                   client_start tg session api_id (or_empty api_hash))
                  (λ _, client_disconnect tg session) (λ _,
      entity ← ensure_joined tg channel_norm try_join;
      export_pipeline tg entity output_path separator include_meta).

End Program.

(** ** Notions the properties are stated with *)

(** A message has text when its body is non-empty or, failing that, its
    caption is present and non-empty; its exported text is the body when
    that is non-empty and the caption otherwise. *)
Definition has_text (msg : Message) : bool :=
  truthy_opt (msg_message msg) || truthy_opt (msg_caption msg).

Definition exported_text (msg : Message) : pystr :=
  if truthy_opt (msg_message msg) then or_empty (msg_message msg)
  else or_empty (msg_caption msg).

(** The metadata line of the literal form [[id:<id> | date:<ISO-8601>]],
    with the line feed that ends it. *)
Definition metadata_line (id : Z) (date : datetime) : pystr :=
  str "[id:" ++ str_of_Z id ++ str " | date:" ++ isoformat date ++ str "]" ++ [LF].

(** The [write] calls one exported message causes, and its record: what
    they put into the file. *)
Definition record_writes (separator : pystr) (include_meta : bool) (msg : Message) : list pystr :=
  (if include_meta then [metadata_line (msg_id msg) (msg_date msg)] else [])
  ++ [exported_text msg; separator].


(** The progress notices printed while the counter goes from [count] to
    [count + n]: one at every multiple of 500. *)
Fixpoint progress_notices (count : Z) (n : nat) : list pystr :=
  match n with
  | O => []
  | S n' =>
      let count := (count + 1)%Z in
      (if (count `mod` 500 =? 0)%Z then [progress_line count] else [])
      ++ progress_notices count n'
  end.

(** The output path can be opened for writing: it is not a directory and
    its parent is one. *)
Definition can_open (t : gmap path node) (p : path) : bool :=
  negb (is_dir t p) && is_dir t (parent p).

(** A sink with further writes, and a world in which the sink [f], which
    was [k], received the writes [ws] while [out] was printed. *)
Definition sink_add (k : Sink) (ws : list pystr) : Sink :=
  {| sink_path := sink_path k;
     sink_writes := sink_writes k ++ ws;
     sink_closed := sink_closed k |}.

Definition wrote (f : nat) (k : Sink) (ws out : list pystr) (w : World) : World :=
  {| environ := environ w;
     fs := alter (append_content (concat ws)) (sink_path k) (fs w);
     sinks := <[f:=sink_add k ws]> (sinks w);
     net := net w;
     stdout := stdout w ++ out |}.

(** The messages of a history that are exported, in stream order. *)
Definition exported (msgs : list Message) : list Message := List.filter has_text msgs.

(** The world the pipeline leaves behind when it could open [p], its sink
    received the writes [ws] and [out] was printed. *)
Definition pipeline_world (e : entity) (p : path) (ws out : list pystr) (w : World) : World :=
  {| environ := environ w;
     fs := <[p:=File (concat ws)]> (fs w);
     sinks := sinks w ++ [{| sink_path := p; sink_writes := ws; sink_closed := true |}];
     net := net w ++ [NetIterMessages e];
     stdout := stdout w ++ out |}.


(** The session name the client is created with. *)
Definition session_name (w : World) : pystr :=
  default (str "telegram_session") (environ w !! str "TELEGRAM_SESSION").

(** The client can be constructed in the file system [t]: the file of its
    session, if it has one, can be opened or created there, and the library
    takes what it holds. *)
Definition session_usable (tg : Telegram) (session : pystr) (t : gmap path node) : bool :=
  match tg_session_file tg session with
  | Some sp =>
      negb (is_dir t sp) && is_dir t (parent sp)
      && match tg_session_open tg (file_content t sp) with
         | Some _ => false
         | None => true
         end
  | None => true
  end.

(** No directory stands where the session file belongs. *)
Definition session_file_free (tg : Telegram) (s : pystr) (t : gmap path node) : Prop :=
  ∀ sp, tg_session_file tg s = Some sp → is_dir t sp = false.

(** The startup of a run succeeds: the credentials are present, the parent
    directories of the output path can be made (giving the file system
    [t]), the client can be constructed and its session file is not the
    output file, the session starts, the channel resolves to [e], and a
    join, when asked for, ends well or with an [Exception]. *)
Definition starts (py_int : pystr → option Z) (tg : Telegram) (channel : pystr)
    (output_path : path) (try_join : bool) (w : World)
    (api_id : Z) (api_hash : pystr) (t : gmap path node) (e : entity) : Prop :=
  py_int (default (str "0") (environ w !! str "TELEGRAM_API_ID")) = Some api_id
  ∧ api_id ≠ 0%Z
  ∧ environ w !! str "TELEGRAM_API_HASH" = Some api_hash
  ∧ truthy api_hash = true
  ∧ mkdir_from [] (parent output_path) (fs w) = Some t
  ∧ session_usable tg (session_name w) t = true
  ∧ tg_session_file tg (session_name w) ≠ Some output_path
  ∧ tg_start tg = None
  ∧ tg_get_entity tg (parse_channel_identifier channel) = inr e
  ∧ (try_join = true → ∀ x, tg_join tg e = Some x → is_Exception x = true).

(** The world once the client is constructed and started in the file
    system [t]: the session is saved twice and the provider has seen the
    start. *)
Definition connected_world (tg : Telegram) (w : World)
    (api_id : Z) (api_hash : pystr) (t : gmap path node) : World :=
  session_save tg (session_name w)
    (log_net (NetStart (session_name w) api_id api_hash)
       (session_save tg (session_name w) (set_fs (λ _, t) w))).

(** The world after a successful startup: the directories are made, the
    client is connected, and the provider has seen the lookup and, when
    asked for, the join. *)
Definition started_world (tg : Telegram) (channel : pystr) (try_join : bool) (w : World)
    (api_id : Z) (api_hash : pystr) (t : gmap path node) (e : entity) : World :=
  (if try_join then log_net (NetJoin e) else id)
    (log_net (NetGetEntity (parse_channel_identifier channel))
       (connected_world tg w api_id api_hash t)).

(** The world after the client has disconnected from [w]. *)
Definition disconnected (tg : Telegram) (session : pystr) (w : World) : World :=
  session_save tg session (log_net NetDisconnect w).

(** The credentials are missing: no application id, or no (or an empty)
    application key. *)
Definition missing_credentials_in (w : World) : Prop :=
  environ w !! str "TELEGRAM_API_ID" = None
  ∨ truthy_opt (environ w !! str "TELEGRAM_API_HASH") = false.

(** The channel cannot be resolved: everything before the lookup succeeds
    (credentials, directories, construction and start of the client) and
    the lookup raises [x]. *)
Definition unresolved (py_int : pystr → option Z) (tg : Telegram) (channel : pystr)
    (output_path : path) (w : World) (x : exn) : Prop :=
  ∃ api_id api_hash t,
    py_int (default (str "0") (environ w !! str "TELEGRAM_API_ID")) = Some api_id
    ∧ api_id ≠ 0%Z
    ∧ environ w !! str "TELEGRAM_API_HASH" = Some api_hash
    ∧ truthy api_hash = true
    ∧ mkdir_from [] (parent output_path) (fs w) = Some t
    ∧ session_usable tg (session_name w) t = true
    ∧ tg_start tg = None
    ∧ tg_get_entity tg (parse_channel_identifier channel) = inl x.

(** ** Sample data, to run the program on

    [int_ascii] agrees with [int] on plain ASCII decimal numerals. *)
Fixpoint digits_value (acc : Z) (s : pystr) : option Z :=
  match s with
  | [] => Some acc
  | c :: s' =>
      if (48 <=? c) && (c <=? 57)
      then digits_value (acc * 10 + Z.of_N (c - 48))%Z s'
      else None
  end.

Definition int_ascii (s : pystr) : option Z :=
  match s with
  | [] => None
  | _ :: _ => digits_value 0 s
  end.

Definition sample_world : World :=
  {| environ := {[ str "TELEGRAM_API_ID" := str "12345";
                   str "TELEGRAM_API_HASH" := str "0123456789abcdef" ]};
     fs := ∅; sinks := []; net := []; stdout := [] |}.

Definition no_credentials_world : World :=
  {| environ := ∅; fs := ∅; sinks := []; net := []; stdout := [] |}.

Definition midnight (year month day : N) : datetime :=
  {| dt_year := year; dt_month := month; dt_day := day;
     dt_hour := 0; dt_minute := 0; dt_second := 0; dt_microsecond := 0;
     dt_utcoffset := None |}.

Definition text_message (id : Z) (body : string) : Message :=
  {| msg_id := id; msg_date := midnight 2024 1 (Z.to_N id);
     msg_message := Some (str body); msg_caption := None |}.

Definition caption_message (id : Z) (caption : string) : Message :=
  {| msg_id := id; msg_date := midnight 2024 1 (Z.to_N id);
     msg_message := Some []; msg_caption := Some (str caption) |}.

Definition empty_message (id : Z) : Message :=
  {| msg_id := id; msg_date := midnight 2024 1 (Z.to_N id);
     msg_message := None; msg_caption := None |}.

Definition scenario_history : list Message :=
  [ text_message 1 "hello"; caption_message 2 "pic caption" ].

Definition mixed_history : list Message :=
  [ text_message 1 "one"; empty_message 2; caption_message 3 "two";
    caption_message 4 ""; text_message 5 "three" ].

(** A session with a plain name [s] is kept in [s.session] in the current
    directory; the empty name stands for a session in memory. *)
Definition plain_session_file (session : pystr) : option (list pystr) :=
  if truthy session then Some [session ++ str ".session"] else None.

(** The file is taken when it is new or begins as a database does. *)
Definition sqlite_open (content : option pystr) : option exn :=
  match content with
  | Some c => if startswith c (str "SQLite format 3") then None else Some DatabaseError
  | None => None
  end.

(** A provider that resolves every channel to the same entity, answers a
    join with [join], and serves [history] ending as [fin] says. *)
Definition provider (resolve : exn + entity) (join : option exn)
    (history : list Message) (fin : option exn) : Telegram :=
  {| tg_start := None;
     tg_get_entity := λ _, resolve;
     tg_join := λ _, join;
     tg_iter_messages := λ _, (history, fin);
     tg_session_file := plain_session_file;
     tg_session_open := sqlite_open;
     tg_session_db := λ _ _, str "SQLite format 3" |}.

Definition chan : entity := Entity 1001.

Definition out_md : path := [str "out"; str "channel_export.md"].

Definition sample_started_fs : gmap path node := {[ [str "out"] := Dir ]}.

Definition sample_api_hash : pystr := str "0123456789abcdef".

(** Ten messages of which the provider serves three before it fails. *)
Definition ten_history : list Message :=
  (λ i, text_message i "post") <$> [1; 2; 3; 4; 5; 6; 7; 8; 9; 10]%Z.

Definition failing_provider : Telegram :=
  provider (inr chan) None (take 3 ten_history) (Some ConnectionError).


Definition blank_line : pystr := [LF; LF].

Definition tme_example : pystr := str "https://t.me/exampleChan".

(** ** Further notions

    A string of whitespace only. *)
Definition all_space (s : pystr) : Prop := Forall (λ c, isspace c = true) s.

(** The credentials check passes with these values. *)
Definition credentials_ok (py_int : pystr → option Z) (w : World)
    (api_id : Z) (api_hash : pystr) : Prop :=
  py_int (default (str "0") (environ w !! str "TELEGRAM_API_ID")) = Some api_id
  ∧ api_id ≠ 0%Z
  ∧ environ w !! str "TELEGRAM_API_HASH" = Some api_hash
  ∧ truthy api_hash = true.

(** The counts at which a progress notice is due while [n] messages are
    exported: the multiples of 500 up to [n]. *)
Definition progress_counts (n : nat) : list Z :=
  filter (λ k, (k `mod` 500 = 0)%Z) (seqZ 1 (Z.of_nat n)).

(** Further sample data. *)
Definition with_environ (env : gmap pystr pystr) (w : World) : World :=
  {| environ := env; fs := fs w; sinks := sinks w; net := net w; stdout := stdout w |}.

Definition bad_id_world : World :=
  with_environ {[ str "TELEGRAM_API_ID" := str "12a45";
                  str "TELEGRAM_API_HASH" := str "0123456789abcdef" ]} sample_world.

Definition zero_id_world : World :=
  with_environ {[ str "TELEGRAM_API_ID" := str "0";
                  str "TELEGRAM_API_HASH" := str "0123456789abcdef" ]} sample_world.

Definition blocked_world : World :=
  set_fs (λ _, {[ [str "out"] := File (str "not a directory") ]}) sample_world.

Definition dir_output_world : World :=
  set_fs (λ _, {[ [str "out"] := Dir; out_md := Dir ]}) sample_world.

Definition notes_world : World :=
  set_fs (λ _, {[ [str "notes.txt"] := File (str "keep me");
                  out_md := File (str "an older export") ]}) sample_world.

Definition down_provider : Telegram :=
  {| tg_start := Some ConnectionError;
     tg_get_entity := λ _, inr chan;
     tg_join := λ _, None;
     tg_iter_messages := λ _, ([], None);
     tg_session_file := plain_session_file;
     tg_session_open := sqlite_open;
     tg_session_db := λ _ _, str "SQLite format 3" |}.

Definition long_history : list Message := replicate 1001 (text_message 1 "post").

Definition export_md : path := [str "channel_export.md"].

Definition notes_started_fs : gmap path node := <[ [str "out"] := Dir ]> (fs notes_world).

(** Strings that UTF-8 cannot encode hold a lone surrogate: a command-line
    argument with the byte 0xFF is read as U+DCFF. *)
Definition lone_surrogate : pystr := [56575].

Definition surrogate_history : list Message :=
  [ text_message 1 "hello";
    {| msg_id := 2; msg_date := midnight 2024 1 2;
       msg_message := Some lone_surrogate; msg_caption := None |};
    text_message 3 "bye" ].


(** A world in which a directory stands where the session file belongs. *)
Definition session_blocked_world : World :=
  set_fs (λ _, {[ [str "telegram_session.session"] := Dir ]}) sample_world.

Definition session_db : node := File (str "SQLite format 3").

(** A world in which the session file holds something else. *)
Definition session_foreign_world : World :=
  set_fs (λ _, {[ [str "telegram_session.session"] := File (str "keep me") ]}) sample_world.

(** ** Notions of encoding

    The write calls a history causes when nothing goes wrong, whether the
    record of a message can be written, and how many exported messages can
    be written in full before the first string that cannot be encoded. *)
Definition all_writes (separator : pystr) (include_meta : bool) (msgs : list Message) : list pystr :=
  exported msgs ≫= record_writes separator include_meta.

Definition record_encodable (separator : pystr) (include_meta : bool) (msg : Message) : bool :=
  forallb encodable (record_writes separator include_meta msg).

Definition completed (separator : pystr) (include_meta : bool) (msgs : list Message) : nat :=
  length (take_while (record_encodable separator include_meta) (exported msgs)).

(** Every string the records of [msgs] are made of can be encoded: the
    text of each exported message and the separator that follows it. *)
Definition writable (separator : pystr) (msgs : list Message) : bool :=
  forallb (λ msg, encodable (exported_text msg) && encodable separator) (exported msgs).

(** How the pipeline ends for a history [msgs] whose iteration ends as
    [fin] says, and what it prints: an encoding error at a write comes
    first, then the end of the iteration, then the final line. *)
Definition pipeline_result (separator : pystr) (include_meta : bool)
    (msgs : list Message) (fin : option exn) (p : path) : result unit :=
  if forallb encodable (all_writes separator include_meta msgs) then
    match fin with
    | Some x => Raise x
    | None =>
        if encodable (done_line (Z.of_nat (length (exported msgs))) p)
        then Ok tt else Raise UnicodeEncodeError
    end
  else Raise UnicodeEncodeError.

Definition pipeline_output (separator : pystr) (include_meta : bool)
    (msgs : list Message) (fin : option exn) (p : path) : list pystr :=
  progress_notices 0 (completed separator include_meta msgs)
  ++ match pipeline_result separator include_meta msgs fin p with
     | Ok _ => [done_line (Z.of_nat (length (exported msgs))) p]
     | Raise _ => []
     end.

(** * Properties *)

(** ** String primitives *)

Section ListScan.
Context {A : Type} (p : A → bool).

Lemma drop_while_length l : (length (drop_while p l) ≤ length l)%nat.
Proof. induction l as [|x l IH]; simpl; [lia|]. destruct (p x); simpl; lia. Qed.

Lemma drop_while_fixed l :
  drop_while p l = l ↔ match l with [] => True | x :: _ => p x = false end.
Proof.
  destruct l as [|x l]; simpl; [done|].
  destruct (p x) eqn:E; split; try done.
  intros H. pose proof (drop_while_length l) as Hl.
  rewrite H in Hl. simpl in Hl. lia.
Qed.

Lemma drop_while_idemp l : drop_while p (drop_while p l) = drop_while p l.
Proof.
  induction l as [|x l IH]; simpl; [done|].
  destruct (p x) eqn:E; [done|]. simpl. by rewrite E.
Qed.

Lemma take_while_all l : Forall (λ x, p x = true) l → take_while p l = l.
Proof. induction 1 as [|x l Hx _ IH]; simpl; [done|]. by rewrite Hx, IH. Qed.

Lemma take_while_prefix l : take_while p l `prefix_of` l.
Proof.
  induction l as [|x l IH]; simpl; [done|].
  destruct (p x); [by apply prefix_cons | apply prefix_nil].
Qed.

End ListScan.

Lemma rstrip_snoc l x :
  rstrip (l ++ [x]) = if isspace x then rstrip l else l ++ [x].
Proof.
  unfold rstrip. rewrite reverse_snoc. simpl.
  destruct (isspace x); [done|].
  by rewrite reverse_cons, reverse_involutive.
Qed.

Lemma rstrip_length s : (length (rstrip s) ≤ length s)%nat.
Proof.
  unfold rstrip. rewrite length_reverse.
  etrans; [apply drop_while_length|]. by rewrite length_reverse.
Qed.

Lemma rstrip_idemp s : rstrip (rstrip s) = rstrip s.
Proof. unfold rstrip. by rewrite reverse_involutive, drop_while_idemp. Qed.

Lemma lstrip_fixed s :
  lstrip s = s ↔ match s with [] => True | c :: _ => isspace c = false end.
Proof. apply drop_while_fixed. Qed.

Lemma rstrip_fixed s :
  rstrip s = s ↔ match last s with None => True | Some c => isspace c = false end.
Proof.
  destruct s as [|c s _] using rev_ind; [done|].
  rewrite rstrip_snoc, last_snoc.
  destruct (isspace c) eqn:E; split; try done.
  intros H. pose proof (rstrip_length s) as Hl.
  rewrite H, length_app in Hl. simpl in Hl. lia.
Qed.

(** Trailing whitespace is removed inside what leading-whitespace removal
    left: the head of a left-trimmed string survives the right trim. *)
Lemma lstrip_rstrip t : lstrip t = t → lstrip (rstrip t) = rstrip t.
Proof.
  induction t as [|c t IH] using rev_ind; [done|].
  intros Ht. rewrite rstrip_snoc. destruct (isspace c); [|done].
  apply IH. apply lstrip_fixed. apply lstrip_fixed in Ht.
  by destruct t.
Qed.

Lemma strip_idemp s : strip (strip s) = strip s.
Proof.
  unfold strip. rewrite lstrip_rstrip by apply drop_while_idemp.
  apply rstrip_idemp.
Qed.

Lemma strip_fixed s : strip s = s ↔ lstrip s = s ∧ rstrip s = s.
Proof.
  split; [|intros [Hl Hr]; unfold strip; by rewrite Hl].
  intros H. assert (lstrip s = s) as Hl.
  { apply lstrip_fixed. destruct s as [|c s]; [done|].
    destruct (isspace c) eqn:E; [|done].
    pose proof (rstrip_length (lstrip (c :: s))) as H1.
    fold (strip (c :: s)) in H1. rewrite H in H1.
    assert (length (lstrip (c :: s)) ≤ length s)%nat as H2.
    { unfold lstrip. simpl. rewrite E. apply drop_while_length. }
    simpl in H1. lia. }
  split; [done|]. unfold strip in H. by rewrite Hl in H.
Qed.

Lemma rstrip_app_fixed p s : s ≠ [] → rstrip s = s → rstrip (p ++ s) = p ++ s.
Proof.
  intros Hne Hs. apply rstrip_fixed. apply rstrip_fixed in Hs.
  destruct s as [|c s _] using rev_ind; [done|].
  rewrite app_assoc, last_snoc. by rewrite last_snoc in Hs.
Qed.

(** A string that starts with a non-space character and ends with a
    trimmed, non-empty string is left alone by [strip]. *)
Lemma strip_cons_app c p s :
  isspace c = false → s ≠ [] → strip s = s → strip (c :: p ++ s) = c :: p ++ s.
Proof.
  intros Hc Hne Hs. apply strip_fixed in Hs as [_ Hs].
  unfold strip. replace (lstrip (c :: p ++ s)) with (c :: p ++ s).
  - by apply (rstrip_app_fixed (c :: p)).
  - symmetry. by apply lstrip_fixed.
Qed.

Lemma strip_prefix_app p s : strip_prefix p (p ++ s) = Some s.
Proof. induction p as [|a p IH]; simpl; [done|]. by rewrite N.eqb_refl. Qed.

Lemma strip_prefix_Some p s r : strip_prefix p s = Some r ↔ s = p ++ r.
Proof.
  split; [|intros ->; apply strip_prefix_app].
  revert s. induction p as [|a p IH]; intros s; simpl.
  - by intros [= ->].
  - destruct s as [|b s]; [done|].
    destruct (N.eqb_spec a b) as [->|]; [|done].
    intros H. by rewrite (IH _ H).
Qed.

Lemma startswith_app s t p : startswith s p = true → startswith (s ++ t) p = true.
Proof.
  unfold startswith. destruct (strip_prefix p s) as [r|] eqn:E; [|done].
  apply strip_prefix_Some in E as ->. by rewrite <-app_assoc, strip_prefix_app.
Qed.

Lemma contains_nil s : contains [] s = true.
Proof. by destruct s. Qed.

Lemma contains_app_l p s t : contains p s = true → contains p (s ++ t) = true.
Proof.
  induction s as [|c s IH]; simpl.
  - destruct p; [|done]. intros _. apply contains_nil.
  - intros [H|H]%orb_true_iff; apply orb_true_iff.
    + left. by apply (startswith_app (c :: s)).
    + right. by apply IH.
Qed.

Lemma contains_app_r p s t : contains p t = true → contains p (s ++ t) = true.
Proof.
  intros H. induction s as [|c s IH]; simpl; [done|].
  apply orb_true_iff. by right.
Qed.

(** ** The normalizer *)

Example parse_bare : parse_channel_identifier (str "durov") = str "durov".
Proof. reflexivity. Qed.
Example parse_at : parse_channel_identifier (str " @durov ") = str "durov".
Proof. reflexivity. Qed.
Example parse_https :
  parse_channel_identifier (str "https://t.me/exampleChan") = str "exampleChan".
Proof. reflexivity. Qed.
Example parse_http :
  parse_channel_identifier (str "http://t.me/joinchat/AbC") = str "joinchat/AbC".
Proof. reflexivity. Qed.
Example parse_invite :
  parse_channel_identifier (str "https://t.me/+AbCdEf") = str "+AbCdEf".
Proof. reflexivity. Qed.

(** The three rules, in the order the code tries them. *)
Lemma parse_rule_url raw g :
  re_match_tme (strip raw) = Some g → parse_channel_identifier raw = g.
Proof. unfold parse_channel_identifier. by intros ->. Qed.

Lemma parse_rule_at raw rest :
  re_match_tme (strip raw) = None → strip raw = AT :: rest →
  parse_channel_identifier raw = rest.
Proof. unfold parse_channel_identifier. by intros -> ->. Qed.

Lemma parse_rule_plain raw :
  re_match_tme (strip raw) = None → has_leading_at (strip raw) = false →
  parse_channel_identifier raw = strip raw.
Proof.
  unfold parse_channel_identifier, has_leading_at. by intros -> ->.
Qed.

Lemma re_group_dot_plus_all s :
  s ≠ [] → LF ∉ s → re_group_dot_plus s = Some s.
Proof.
  intros Hne Hlf. unfold re_group_dot_plus.
  rewrite take_while_all.
  - by destruct s.
  - apply Forall_forall. intros c Hc.
    destruct (N.eqb_spec c LF) as [->|]; done.
Qed.

Lemma re_group_dot_plus_head s c :
  head s = Some c → c ≠ LF →
  ∃ g, re_group_dot_plus s = Some g ∧ g `prefix_of` s ∧ head g = Some c.
Proof.
  destruct s as [|c' s]; [done|]. intros [= ->] Hc.
  exists (take_while (λ c, negb (c =? LF)) (c :: s)).
  split_and!; [|apply take_while_prefix|].
  - unfold re_group_dot_plus. simpl.
    by destruct (N.eqb_spec c LF).
  - simpl. by destruct (N.eqb_spec c LF).
Qed.

Lemma re_match_tme_https s :
  re_match_tme (str "https://t.me/" ++ s) = re_group_dot_plus s.
Proof.
  change (str "https://t.me/") with (str "http" ++ str "s" ++ str "://t.me/").
  unfold re_match_tme. rewrite <-!app_assoc, strip_prefix_app.
  cbn [mbind option_bind]. 
  rewrite strip_prefix_app. unfold re_after_scheme at 1.
  rewrite strip_prefix_app. cbn [mbind option_bind]. by destruct (re_group_dot_plus s).
Qed.

Lemma re_match_tme_http s :
  re_match_tme (str "http://t.me/" ++ s) = re_group_dot_plus s.
Proof.
  change (str "http://t.me/") with (str "http" ++ str "://t.me/").
  unfold re_match_tme. rewrite <-!app_assoc, strip_prefix_app.
  cbn [mbind option_bind]. 
  replace (strip_prefix (str "s") (str "://t.me/" ++ s)) with (@None pystr)
    by reflexivity.
  unfold re_after_scheme. by rewrite strip_prefix_app.
Qed.

Lemma re_match_tme_at s : re_match_tme (AT :: s) = None.
Proof. reflexivity. Qed.

(** Only a string that carries the scheme separator can match. *)
Lemma re_match_tme_scheme s g :
  re_match_tme s = Some g → contains_scheme s = true.
Proof.
  unfold re_match_tme, contains_scheme.
  destruct (strip_prefix (str "http") s) as [rest|] eqn:E; [|done].
  cbn [mbind option_bind]. apply strip_prefix_Some in E as ->.
  assert (∀ t g', re_after_scheme t = Some g' → contains (str "://") t = true) as Hs.
  { intros t g'. unfold re_after_scheme.
    destruct (strip_prefix (str "://t.me/") t) as [u|] eqn:E; [|done].
    intros _. apply strip_prefix_Some in E as ->. reflexivity. }
  intros H. apply contains_app_r.
  destruct (strip_prefix (str "s") rest) as [rest'|] eqn:E; [|by eapply Hs].
  destruct (re_after_scheme rest') as [g'|] eqn:E'; [|by eapply Hs].
  apply strip_prefix_Some in E as ->. apply contains_app_r. by eapply Hs.
Qed.

(** C3 (as amended). For every name that is non-empty, carries no
    surrounding whitespace and no line feed, does not begin with [@] and is
    not itself a t.me URL, the four surface forms [name], [@name],
    [https://t.me/name] and [http://t.me/name] all normalize to [name]. The
    rules are tried in the order of [parse_rule_url], [parse_rule_at],
    [parse_rule_plain]: URL first, then the leading [@], then the trimmed
    string unchanged. *)
Theorem normalize_surface_forms name :
  name ≠ [] → strip name = name → LF ∉ name →
  has_leading_at name = false → re_match_tme name = None →
  Forall (λ form, parse_channel_identifier form = name) (surface_forms name).
Proof.
  intros Hne Hstrip Hlf Hat Hurl.
  assert (∀ c p, isspace c = false → strip (c :: p ++ name) = c :: p ++ name)
    as Hform by (intros; by apply strip_cons_app).
  repeat apply Forall_cons_2; [| | | |by apply Forall_nil].
  - rewrite <-Hstrip at 2. apply parse_rule_plain; by rewrite Hstrip.
  - change (str "@" ++ name) with (AT :: [] ++ name).
    apply parse_rule_at; by rewrite Hform.
  - apply parse_rule_url.
    change (strip (str "https://t.me/" ++ name))
      with (strip (104 :: str "ttps://t.me/" ++ name)).
    rewrite Hform by done.
    change (104 :: str "ttps://t.me/" ++ name) with (str "https://t.me/" ++ name).
    rewrite re_match_tme_https. by apply re_group_dot_plus_all.
  - apply parse_rule_url.
    change (strip (str "http://t.me/" ++ name))
      with (strip (104 :: str "ttp://t.me/" ++ name)).
    rewrite Hform by done.
    change (104 :: str "ttp://t.me/" ++ name) with (str "http://t.me/" ++ name).
    rewrite re_match_tme_http. by apply re_group_dot_plus_all.
Qed.

Lemma normalize_surface_forms_witness :
  Forall (λ form, parse_channel_identifier form = str "durov")
         (surface_forms (str "durov")).
Proof.
  apply normalize_surface_forms.
  - discriminate.
  - reflexivity.
  - apply (bool_decide_unpack _). vm_compute. exact I.
  - reflexivity.
  - reflexivity.
Defined.

(** C3 as stated fails: a name that begins with [@] loses it in its bare
    form. *)
Lemma normalize_surface_forms_counterexample :
  ¬ Forall (λ form, parse_channel_identifier form = str "@chan")
           (surface_forms (str "@chan")).
Proof.
  intros H. apply Forall_cons in H as [H _].
  vm_compute in H. discriminate H.
Qed.

Lemma contains_prefix p g s :
  g `prefix_of` s → contains p s = false → contains p g = false.
Proof.
  intros [t ->] H. destruct (contains p g) eqn:E; [|done].
  by rewrite (contains_app_l _ _ t E) in H.
Qed.

Lemma has_leading_at_head s :
  has_leading_at s = match head s with Some c => c =? AT | None => false end.
Proof.
  destruct s as [|c s]; [done|]. unfold has_leading_at, startswith.
  change (str "@") with [AT]. cbn [strip_prefix head].
  rewrite (N.eqb_sym AT c). by destruct (c =? AT).
Qed.

(** C4 (as amended). Whenever the trimmed input is an accepted surface form
    ([name], [@name], [https://t.me/name], [http://t.me/name]) of a name
    that itself has no leading [@] and no URL scheme, the normalized
    channel has no leading [@] and contains no URL scheme. One layer of
    decoration is removed, never two. *)
Theorem normalized_channel_invariant raw name :
  has_leading_at name = false → contains_scheme name = false →
  is_surface_form (strip raw) name →
  has_leading_at (parse_channel_identifier raw) = false
  ∧ contains_scheme (parse_channel_identifier raw) = false.
Proof.
  intros Hat Hsch [Hf|[Hf|[Hf (c & Hc & Hlf)]]].
  - rewrite parse_rule_plain; rewrite Hf; try done.
    destruct (re_match_tme name) as [g|] eqn:E; [|done].
    apply re_match_tme_scheme in E. congruence.
  - by rewrite (parse_rule_at raw name); rewrite ?Hf.
  - destruct (re_group_dot_plus_head name c Hc Hlf) as (g & Hg & Hpre & Hhd).
    rewrite (parse_rule_url raw g).
    + split; [|by eapply contains_prefix].
      rewrite has_leading_at_head, Hhd.
      by rewrite has_leading_at_head, Hc in Hat.
    + destruct Hf as [-> | ->];
        by rewrite ?re_match_tme_https, ?re_match_tme_http.
Qed.

Lemma normalized_channel_invariant_witness :
  has_leading_at (parse_channel_identifier (str " https://t.me/durov ")) = false
  ∧ contains_scheme (parse_channel_identifier (str " https://t.me/durov ")) = false.
Proof.
  apply (normalized_channel_invariant _ (str "durov")).
  - reflexivity.
  - reflexivity.
  - right. right. split.
    + left. reflexivity.
    + exists 100. split; [reflexivity | discriminate].
Defined.

(** C4 as stated fails: a doubled [@] leaves a leading [@], and a URL that
    is not a t.me link is returned with its scheme. *)
Lemma normalized_channel_invariant_counterexample :
  has_leading_at (parse_channel_identifier (str "@@chan")) = true
  ∧ contains_scheme (parse_channel_identifier (str "https://example.org/chan")) = true.
Proof. split; reflexivity. Qed.

Lemma strip_length s : (length (strip s) ≤ length s)%nat.
Proof.
  unfold strip. etrans; [apply rstrip_length|]. apply drop_while_length.
Qed.

(** A match is always shorter than the string it was found in. *)
Lemma re_match_tme_shorter s g :
  re_match_tme s = Some g → (length g < length s)%nat.
Proof.
  unfold re_match_tme.
  destruct (strip_prefix (str "http") s) as [rest|] eqn:E; [|done].
  cbn [mbind option_bind]. apply strip_prefix_Some in E as ->.
  assert (∀ t, re_after_scheme t = Some g → (length g < length t)%nat) as Hs.
  { intros t. unfold re_after_scheme.
    destruct (strip_prefix (str "://t.me/") t) as [u|] eqn:E; [|done].
    cbn [mbind option_bind]. apply strip_prefix_Some in E as ->.
    unfold re_group_dot_plus. destruct (truthy _); [|done]. intros [= <-].
    pose proof (prefix_length _ _ (take_while_prefix (λ c, negb (c =? LF)) u)).
    rewrite length_app. change (length (str "://t.me/")) with 8%nat. lia. }
  assert (∀ t, re_after_scheme t = Some g → ∀ a, (length g < length (a ++ t))%nat) as Hs'.
  { intros t Ht a. specialize (Hs t Ht). rewrite length_app. lia. }
  destruct (strip_prefix (str "s") rest) as [rest'|] eqn:E; [|by intros ?; apply Hs'].
  apply strip_prefix_Some in E as ->.
  destruct (re_after_scheme rest') as [g'|] eqn:E'.
  - intros [= ->]. rewrite app_assoc. by apply Hs'.
  - intros ?. by apply Hs'.
Qed.

(** The result is a fixed point of the normalizer exactly when it is
    trimmed and matches neither rule. *)
Lemma parse_fixed_point r :
  parse_channel_identifier r = r
  ↔ strip r = r ∧ re_match_tme r = None ∧ has_leading_at r = false.
Proof.
  split.
  - intros Hr. pose proof (strip_length r) as Hlen.
    unfold parse_channel_identifier in Hr.
    destruct (re_match_tme (strip r)) as [g|] eqn:Eg.
    { apply re_match_tme_shorter in Eg. rewrite Hr in Eg. lia. }
    fold (has_leading_at (strip r)) in Hr.
    destruct (has_leading_at (strip r)) eqn:Ea.
    { apply (f_equal length) in Hr. rewrite length_drop in Hr.
      rewrite has_leading_at_head in Ea. destruct (strip r); [done|].
      simpl in *. lia. }
    by rewrite Hr in Eg, Ea.
  - intros (Hs & Hm & Ha). rewrite parse_rule_plain; by rewrite Hs.
Qed.

(** C5 (as amended). An input whose trimmed form matches neither the t.me
    URL pattern nor the leading [@] is returned trimmed and unchanged. The
    normalizer is idempotent at an input exactly when the result for that
    input is free of surrounding whitespace and matches neither pattern
    itself; every input whose trimmed form matches neither pattern is such
    an input. *)
Theorem normalize_unmatched raw :
  (re_match_tme (strip raw) = None → has_leading_at (strip raw) = false →
   parse_channel_identifier raw = strip raw)
  ∧ (parse_channel_identifier (parse_channel_identifier raw)
     = parse_channel_identifier raw
     ↔ strip (parse_channel_identifier raw) = parse_channel_identifier raw
       ∧ re_match_tme (parse_channel_identifier raw) = None
       ∧ has_leading_at (parse_channel_identifier raw) = false)
  ∧ (re_match_tme (strip raw) = None → has_leading_at (strip raw) = false →
     parse_channel_identifier (parse_channel_identifier raw)
     = parse_channel_identifier raw).
Proof.
  split_and!.
  - apply parse_rule_plain.
  - apply parse_fixed_point.
  - intros Hurl Hat. apply parse_fixed_point.
    rewrite parse_rule_plain by done. by rewrite strip_idemp.
Qed.

Lemma normalize_unmatched_witness :
  parse_channel_identifier (str " durov ") = strip (str " durov ")
  ∧ parse_channel_identifier (parse_channel_identifier (str "@durov"))
    = parse_channel_identifier (str "@durov")
  ∧ parse_channel_identifier (parse_channel_identifier (str "https://t.me/durov"))
    = parse_channel_identifier (str "https://t.me/durov").
Proof.
  split_and!.
  - apply (proj1 (normalize_unmatched (str " durov "))); reflexivity.
  - apply (proj1 (proj2 (normalize_unmatched (str "@durov")))).
    split_and!; reflexivity.
  - apply (proj1 (proj2 (normalize_unmatched (str "https://t.me/durov")))).
    split_and!; reflexivity.
Defined.

(** C5 as stated fails: idempotence does not hold for every input. Each
    pass removes one leading [@], and whitespace behind a removed [@] is
    trimmed by the next pass only. *)
Lemma normalize_idempotent_counterexample :
  parse_channel_identifier (parse_channel_identifier (str "@@chan"))
  ≠ parse_channel_identifier (str "@@chan")
  ∧ parse_channel_identifier (parse_channel_identifier (str "@ chan"))
    ≠ parse_channel_identifier (str "@ chan").
Proof. split; vm_compute; discriminate. Qed.

Lemma bind_run {A B} (m : M A) (k : A → M B) w :
  (m ≫= k) w = match m w with
               | (Ok a, w') => k a w'
               | (Raise e, w') => (Raise e, w')
               end.
Proof. reflexivity. Qed.

(** ** Resolution and join *)

Lemma ensure_joined_run tg channel try_join w e :
  tg_get_entity tg channel = inr e →
  (try_join = true → ∀ x, tg_join tg e = Some x → is_Exception x = true) →
  ensure_joined tg channel try_join w
  = (Ok e, (if try_join then log_net (NetJoin e) else id)
             (log_net (NetGetEntity channel) w)).
Proof.
  intros He Hj. unfold ensure_joined, client_get_entity.
  rewrite !bind_run. unfold modify at 1, lift at 1. cbv beta iota.
  rewrite He. cbn [of_sum]. rewrite bind_run.
  destruct try_join; [|done].
  unfold try_pass, client_join. rewrite bind_run.
  unfold modify at 1, lift at 1. cbv beta iota.
  destruct (tg_join tg e) as [x|] eqn:Ej; [|done]. cbn [of_outcome].
  rewrite (Hj eq_refl x eq_refl). by rewrite orb_true_r.
Qed.

Lemma ensure_joined_unresolved tg channel try_join w x :
  tg_get_entity tg channel = inl x →
  ensure_joined tg channel try_join w = (Raise x, log_net (NetGetEntity channel) w).
Proof.
  intros He. unfold ensure_joined, client_get_entity.
  rewrite !bind_run. unfold modify at 1, lift at 1. cbv beta iota.
  by rewrite He.
Qed.

(** C6. With [try_join] set and the entity resolved, [ensure_joined]
    returns the resolved handle and raises nothing, whether the join
    succeeds, reports that the user already participates, or fails with
    any other error (private channel, banned, invite required, flood
    wait): every join failure, being an [Exception], is swallowed. *)
Theorem ensure_joined_swallows_join_errors tg channel w e :
  tg_get_entity tg channel = inr e →
  (∀ x, tg_join tg e = Some x → is_Exception x = true) →
  ensure_joined tg channel true w
  = (Ok e, log_net (NetJoin e) (log_net (NetGetEntity channel) w)).
Proof. intros He Hj. by apply (ensure_joined_run tg channel true). Qed.

Lemma ensure_joined_swallows_join_errors_witness :
  ensure_joined (provider (inr chan) (Some ChannelPrivateError) [] None)
                (str "durov") true sample_world
  = (Ok chan, log_net (NetJoin chan) (log_net (NetGetEntity (str "durov")) sample_world)).
Proof.
  apply ensure_joined_swallows_join_errors.
  - reflexivity.
  - intros x [= <-]. reflexivity.
Defined.

Example ensure_joined_already_participant :
  (ensure_joined (provider (inr chan) (Some UserAlreadyParticipantError) [] None)
                 (str "durov") true sample_world).1 = Ok chan.
Proof. reflexivity. Qed.

Example ensure_joined_flood_wait :
  (ensure_joined (provider (inr chan) (Some (FloodWaitError 30)) [] None)
                 (str "durov") true sample_world).1 = Ok chan.
Proof. reflexivity. Qed.

(** What is not an [Exception] is not a join failure and is not caught. *)
Example ensure_joined_cancelled :
  (ensure_joined (provider (inr chan) (Some CancelledError) [] None)
                 (str "durov") true sample_world).1 = Raise CancelledError.
Proof. reflexivity. Qed.

(** * Further properties of the normalizer *)

Lemma lstrip_app_space pre s : all_space pre → lstrip (pre ++ s) = lstrip s.
Proof.
  induction 1 as [|c pre Hc _ IH]; [done|].
  unfold lstrip in *. simpl in *. by rewrite Hc.
Qed.

Lemma rstrip_app_space s post : all_space post → rstrip (s ++ post) = rstrip s.
Proof.
  induction post as [|c post IH] using rev_ind; intros H.
  - by rewrite app_nil_r.
  - unfold all_space in H. rewrite Forall_app, Forall_singleton in H.
    destruct H as [H1 H2]. rewrite app_assoc, rstrip_snoc, H2. by apply IH.
Qed.

Lemma lstrip_nil_space s : lstrip s = [] → all_space s.
Proof.
  unfold lstrip. induction s as [|c s IH]; simpl; [by constructor|].
  destruct (isspace c) eqn:E; [|done]. intros H.
  apply Forall_cons_2; [done|by apply IH].
Qed.

Lemma lstrip_space_nil s : all_space s → lstrip s = [].
Proof. intros H. rewrite <-(app_nil_r s). by rewrite lstrip_app_space. Qed.

Lemma lstrip_app s t : lstrip s ≠ [] → lstrip (s ++ t) = lstrip s ++ t.
Proof.
  unfold lstrip. induction s as [|c s IH]; simpl; [done|].
  destruct (isspace c); [done|]. done.
Qed.

Lemma strip_surrounded pre raw post :
  all_space pre → all_space post → strip (pre ++ raw ++ post) = strip raw.
Proof.
  intros Hpre Hpost. unfold strip. rewrite lstrip_app_space by done.
  destruct (decide (lstrip raw = [])) as [E|E].
  - rewrite E. rewrite lstrip_app_space by by apply lstrip_nil_space.
    by rewrite lstrip_space_nil.
  - rewrite lstrip_app by done. by apply rstrip_app_space.
Qed.

Lemma drop_while_suffix {A} (p : A → bool) l : drop_while p l `suffix_of` l.
Proof.
  induction l as [|x l IH]; simpl; [done|].
  destruct (p x); [by apply suffix_cons_r|done].
Qed.

Lemma rstrip_prefix s : rstrip s `prefix_of` s.
Proof.
  unfold rstrip. destruct (drop_while_suffix isspace (reverse s)) as [a Ha].
  exists (reverse a). rewrite <-reverse_app, <-Ha. by rewrite reverse_involutive.
Qed.

Lemma take_while_Forall {A} (p : A → bool) l : Forall (λ x, p x = true) (take_while p l).
Proof.
  induction l as [|x l IH]; simpl; [by constructor|].
  destruct (p x) eqn:E; [by apply Forall_cons_2|by constructor].
Qed.

Lemma take_while_app_stop {A} (p : A → bool) a x b :
  Forall (λ y, p y = true) a → p x = false → take_while p (a ++ x :: b) = a.
Proof.
  intros Ha Hx. induction Ha as [|y a Hy _ IH]; simpl in *.
  - by rewrite Hx.
  - by rewrite Hy, IH.
Qed.

Lemma not_LF_Forall s : LF ∉ s ↔ Forall (λ c, negb (c =? LF) = true) s.
Proof.
  rewrite Forall_forall. split.
  - intros H c Hc. destruct (N.eqb_spec c LF) as [->|]; done.
  - intros H Hin. specialize (H _ Hin). by rewrite N.eqb_refl in H.
Qed.

Lemma re_group_dot_plus_inv t g :
  re_group_dot_plus t = Some g → g ≠ [] ∧ (LF ∉ g) ∧ g `prefix_of` t.
Proof.
  unfold re_group_dot_plus.
  destruct (truthy _) eqn:E; [|done]. intros [= <-]. split_and!.
  - by destruct (take_while _ t).
  - apply not_LF_Forall, take_while_Forall.
  - apply take_while_prefix.
Qed.

(** What a match captures: a non-empty piece of the string without a line
    feed. *)
Lemma re_match_tme_inv s g :
  re_match_tme s = Some g → g ≠ [] ∧ (LF ∉ g) ∧ ∃ pre post, s = pre ++ g ++ post.
Proof.
  unfold re_match_tme.
  destruct (strip_prefix (str "http") s) as [rest|] eqn:E; [|done].
  cbn [mbind option_bind]. apply strip_prefix_Some in E as ->.
  assert (∀ t, re_after_scheme t = Some g →
               g ≠ [] ∧ (LF ∉ g) ∧ ∃ pre post, t = pre ++ g ++ post) as Hs.
  { intros t. unfold re_after_scheme.
    destruct (strip_prefix (str "://t.me/") t) as [u|] eqn:E; [|done].
    cbn [mbind option_bind]. apply strip_prefix_Some in E as ->.
    intros (? & ? & [post ->])%re_group_dot_plus_inv. split_and!; eauto. }
  assert (∀ t, re_after_scheme t = Some g → ∀ a,
               g ≠ [] ∧ (LF ∉ g) ∧ ∃ pre post, a ++ t = pre ++ g ++ post) as Hs'.
  { intros t Ht a. destruct (Hs t Ht) as (? & ? & pre & post & ->).
    split_and!; [done..|]. exists (a ++ pre), post. by rewrite <-app_assoc. }
  destruct (strip_prefix (str "s") rest) as [rest'|] eqn:E; [|by intros ?; apply Hs'].
  apply strip_prefix_Some in E as ->.
  destruct (re_after_scheme rest') as [g'|] eqn:E'.
  - intros [= ->]. rewrite app_assoc. by apply Hs'.
  - intros ?. by apply Hs'.
Qed.

Lemma startswith_at s : has_leading_at s = true ↔ ∃ rest, s = AT :: rest.
Proof.
  rewrite has_leading_at_head. destruct s as [|c s]; simpl.
  - split; [done|by intros [? ?]].
  - destruct (N.eqb_spec c AT) as [->|]; split; eauto; [done|].
    intros [? [= ]]. done.
Qed.

(** The normalizer, rule by rule. *)
Lemma parse_cases raw :
  (∃ g, re_match_tme (strip raw) = Some g ∧ parse_channel_identifier raw = g)
  ∨ (∃ rest, strip raw = AT :: rest ∧ parse_channel_identifier raw = rest)
  ∨ (re_match_tme (strip raw) = None ∧ has_leading_at (strip raw) = false
     ∧ parse_channel_identifier raw = strip raw).
Proof.
  destruct (re_match_tme (strip raw)) as [g|] eqn:Eg.
  - left. exists g. split; [done|by apply parse_rule_url].
  - destruct (has_leading_at (strip raw)) eqn:Ea.
    + right. left. apply startswith_at in Ea as [rest Hr]. exists rest.
      split; [done|by apply parse_rule_at].
    + right. right. split_and!; [done..|by apply parse_rule_plain].
Qed.

(** X1. Whitespace around the identifier never matters: padding the input
    on either side with whitespace of any kind gives the same result. *)
Theorem normalize_ignores_surrounding_whitespace pre raw post :
  all_space pre → all_space post →
  parse_channel_identifier (pre ++ raw ++ post) = parse_channel_identifier raw.
Proof.
  intros Hpre Hpost. unfold parse_channel_identifier.
  by rewrite strip_surrounded.
Qed.

Lemma normalize_ignores_surrounding_whitespace_witness :
  parse_channel_identifier ([9; 32] ++ str "@durov" ++ [13; 10; 160])
  = parse_channel_identifier (str "@durov").
Proof.
  apply normalize_ignores_surrounding_whitespace.
  - repeat constructor.
  - repeat constructor.
Defined.

(** X2. The result is always one contiguous piece of the input: the
    normalizer only cuts characters off the two ends and never adds,
    replaces or reorders any. *)
Theorem normalize_returns_a_piece_of_the_input raw :
  ∃ before after, raw = before ++ parse_channel_identifier raw ++ after.
Proof.
  assert (∃ a b, raw = a ++ strip raw ++ b) as (a & b & Hraw).
  { destruct (drop_while_suffix isspace raw) as [a Ha].
    destruct (rstrip_prefix (lstrip raw)) as [b Hb].
    exists a, b. unfold strip. fold (lstrip raw) in Ha. by rewrite <-Hb. }
  destruct (parse_cases raw) as [(g & Hg & ->)|[(rest & Hr & ->)|(_ & _ & ->)]].
  - apply re_match_tme_inv in Hg as (_ & _ & pre & post & Hs).
    exists (a ++ pre), (post ++ b). rewrite Hraw at 1. rewrite Hs.
    by rewrite <-!app_assoc.
  - exists (a ++ [AT]), b. rewrite Hraw at 1. rewrite Hr.
    by rewrite <-!app_assoc.
  - by exists a, b.
Qed.

(** X3. The result is empty exactly when the trimmed input is empty or is
    a lone [@]; the URL rule never yields an empty channel. *)
Theorem normalize_empty_iff raw :
  parse_channel_identifier raw = [] ↔ strip raw = [] ∨ strip raw = [AT].
Proof.
  split.
  - destruct (parse_cases raw) as [(g & Hg & ->)|[(rest & Hr & ->)|(_ & _ & ->)]].
    + intros ->. by apply re_match_tme_inv in Hg as (? & _).
    + intros ->. by right.
    + by left.
  - intros [H|H]; unfold parse_channel_identifier; by rewrite H.
Qed.

Lemma strip_cons_app_r c p s :
  isspace c = false → s ≠ [] → rstrip s = s → strip (c :: p ++ s) = c :: p ++ s.
Proof.
  intros Hc Hne Hs. unfold strip. replace (lstrip (c :: p ++ s)) with (c :: p ++ s).
  - by apply (rstrip_app_fixed (c :: p)).
  - symmetry. by apply lstrip_fixed.
Qed.

Lemma strip_tme_https s :
  s ≠ [] → rstrip s = s → strip (str "https://t.me/" ++ s) = str "https://t.me/" ++ s.
Proof.
  intros. change (str "https://t.me/" ++ s) with (104 :: str "ttps://t.me/" ++ s).
  by apply strip_cons_app_r.
Qed.

Lemma strip_tme_http s :
  s ≠ [] → rstrip s = s → strip (str "http://t.me/" ++ s) = str "http://t.me/" ++ s.
Proof.
  intros. change (str "http://t.me/" ++ s) with (104 :: str "ttp://t.me/" ++ s).
  by apply strip_cons_app_r.
Qed.

(** X4. Behind a t.me URL prefix the whole single-line path is returned as
    it is, whatever it contains: further slashes, a [+] invite hash, a
    query, even a leading [@] or another URL. *)
Theorem normalize_url_keeps_path path :
  path ≠ [] → rstrip path = path → LF ∉ path →
  parse_channel_identifier (str "https://t.me/" ++ path) = path
  ∧ parse_channel_identifier (str "http://t.me/" ++ path) = path.
Proof.
  intros Hne Hr Hlf. split; apply parse_rule_url.
  - rewrite strip_tme_https, re_match_tme_https by done.
    by apply re_group_dot_plus_all.
  - rewrite strip_tme_http, re_match_tme_http by done.
    by apply re_group_dot_plus_all.
Qed.

Lemma normalize_url_keeps_path_witness :
  parse_channel_identifier (str "https://t.me/" ++ str "joinchat/AbC?x=1")
  = str "joinchat/AbC?x=1"
  ∧ parse_channel_identifier (str "http://t.me/" ++ str "joinchat/AbC?x=1")
    = str "joinchat/AbC?x=1".
Proof.
  apply normalize_url_keeps_path.
  - discriminate.
  - reflexivity.
  - apply (bool_decide_unpack _). vm_compute. exact I.
Defined.

(** X5. Behind a t.me URL prefix only the first line counts: the path ends
    at the first line feed, and what follows it is dropped. *)
Theorem normalize_url_stops_at_line_feed first more :
  first ≠ [] → LF ∉ first → more ≠ [] → rstrip more = more →
  parse_channel_identifier (str "https://t.me/" ++ first ++ [LF] ++ more) = first
  ∧ parse_channel_identifier (str "http://t.me/" ++ first ++ [LF] ++ more) = first.
Proof.
  intros Hne Hlf Hm Hr.
  assert (first ++ [LF] ++ more ≠ []) as Hne' by by destruct first.
  assert (rstrip (first ++ [LF] ++ more) = first ++ [LF] ++ more) as Hr'.
  { rewrite app_assoc. by apply rstrip_app_fixed. }
  assert (re_group_dot_plus (first ++ [LF] ++ more) = Some first) as Hg.
  { unfold re_group_dot_plus. simpl app.
    rewrite take_while_app_stop; [by destruct first|by apply not_LF_Forall|done]. }
  split; apply parse_rule_url.
  - by rewrite strip_tme_https, re_match_tme_https.
  - by rewrite strip_tme_http, re_match_tme_http.
Qed.

Lemma normalize_url_stops_at_line_feed_witness :
  parse_channel_identifier (str "https://t.me/" ++ str "durov" ++ [LF] ++ str "see you")
  = str "durov"
  ∧ parse_channel_identifier (str "http://t.me/" ++ str "durov" ++ [LF] ++ str "see you")
    = str "durov".
Proof.
  apply normalize_url_stops_at_line_feed.
  - discriminate.
  - apply (bool_decide_unpack _). vm_compute. exact I.
  - discriminate.
  - reflexivity.
Defined.

(** * Further properties of resolution and join *)

Lemma ensure_joined_join_raises tg channel w e x :
  tg_get_entity tg channel = inr e → tg_join tg e = Some x →
  is_Exception x = false →
  ensure_joined tg channel true w
  = (Raise x, log_net (NetJoin e) (log_net (NetGetEntity channel) w)).
Proof.
  intros He Hj Hx. unfold ensure_joined, client_get_entity.
  rewrite !bind_run. unfold modify at 1, lift at 1. cbv beta iota.
  rewrite He. cbn [of_sum]. rewrite bind_run.
  unfold try_pass, client_join. rewrite bind_run.
  unfold modify at 1, lift at 1. cbv beta iota. rewrite Hj. cbn [of_outcome].
  rewrite Hx. by destruct x.
Qed.

(** X6. Whatever the provider answers, [ensure_joined] touches nothing but
    the connection: environment, files, sinks and output stay as they were;
    it makes one lookup and, only when [try_join] is set and the lookup
    succeeded, one join request after it. A failed lookup is raised as it
    is, with no join attempted. *)
Theorem ensure_joined_effects tg channel try_join w :
  let r := ensure_joined tg channel try_join w in
  environ r.2 = environ w ∧ fs r.2 = fs w ∧ sinks r.2 = sinks w
  ∧ stdout r.2 = stdout w
  ∧ net r.2 = net w ++ NetGetEntity channel ::
                match tg_get_entity tg channel with
                | inr e => if try_join then [NetJoin e] else []
                | inl _ => []
                end
  ∧ ∀ x, tg_get_entity tg channel = inl x → r.1 = Raise x.
Proof.
  destruct (tg_get_entity tg channel) as [x|e] eqn:He.
  - rewrite (ensure_joined_unresolved _ _ _ _ x) by done. simpl.
    split_and!; try done. by intros ? [= ->].
  - assert (∃ r, ensure_joined tg channel try_join w
                 = (r, (if try_join then log_net (NetJoin e) else id)
                         (log_net (NetGetEntity channel) w))) as [r ->].
    { destruct try_join.
      - destruct (tg_join tg e) as [x|] eqn:Hj.
        + destruct (is_Exception x) eqn:Hx.
          * exists (Ok e). apply (ensure_joined_run tg channel true w e He).
            intros _ y. rewrite Hj. by intros [= <-].
          * exists (Raise x). by apply ensure_joined_join_raises.
        + exists (Ok e). apply (ensure_joined_run tg channel true w e He).
          intros _ y. by rewrite Hj.
      - exists (Ok e). by apply (ensure_joined_run tg channel false w e He). }
    destruct try_join; simpl; split_and!; try done;
      by rewrite <-?app_assoc.
Qed.

(** X7. What the join raises outside [Exception] (a cancellation, a
    keyboard interrupt, a [SystemExit]) is not swallowed: it leaves
    [ensure_joined] as it is, after the join request was made. *)
Theorem ensure_joined_propagates_base_exceptions tg channel w e x :
  tg_get_entity tg channel = inr e → tg_join tg e = Some x →
  is_Exception x = false →
  ensure_joined tg channel true w
  = (Raise x, log_net (NetJoin e) (log_net (NetGetEntity channel) w)).
Proof. apply ensure_joined_join_raises. Qed.

Lemma ensure_joined_propagates_base_exceptions_witness :
  ensure_joined (provider (inr chan) (Some KeyboardInterrupt) [] None)
                (str "durov") true sample_world
  = (Raise KeyboardInterrupt,
     log_net (NetJoin chan) (log_net (NetGetEntity (str "durov")) sample_world)).
Proof.
  apply ensure_joined_propagates_base_exceptions; reflexivity.
Defined.

(** * The pipeline and whole runs *)

Lemma mkdir_from_lookup rest : ∀ base t t' q,
  mkdir_from base rest t = Some t' →
  (length base + length rest < length q)%nat → t' !! q = t !! q.
Proof.
  induction rest as [|c rest IH]; intros base t t' q; simpl.
  - by intros [= ->].
  - intros H Hlen.
    assert (base ++ [c] ≠ q) as Hne.
    { intros <-. rewrite length_app in Hlen. simpl in Hlen. lia. }
    assert (length (base ++ [c]) + length rest < length q)%nat as Hlen'.
    { rewrite length_app. simpl. lia. }
    destruct (t !! (base ++ [c])) as [[|?]|] eqn:E; [|done|].
    + by eapply IH.
    + rewrite (IH _ _ _ _ H Hlen'). by apply lookup_insert_ne.
Qed.

Lemma mkdir_parent_lookup p t t' :
  mkdir_from [] (parent p) t = Some t' → t' !! p = t !! p.
Proof.
  destruct p as [|c p _] using rev_ind.
  - by intros [= ->].
  - intros H. eapply mkdir_from_lookup; [done|].
    unfold parent. rewrite length_take, length_app. simpl. lia.
Qed.


Lemma mkdir_from_blocked rest : ∀ base t d c,
  d `prefix_of` rest → d ≠ [] → t !! (base ++ d) = Some (File c) →
  mkdir_from base rest t = None.
Proof.
  induction rest as [|x rest IH]; intros base t d c Hpre Hne Hd.
  - by apply prefix_nil_inv in Hpre.
  - destruct d as [|y d]; [done|].
    apply prefix_cons_inv_1 in Hpre as Hy. subst y.
    apply prefix_cons_inv_2 in Hpre.
    simpl. destruct (decide (d = [])) as [->|Hd'].
    { by rewrite Hd. }
    assert ((base ++ [x]) ++ d = base ++ x :: d) as Heq by by rewrite <-app_assoc.
    destruct (t !! (base ++ [x])) as [[|?]|] eqn:E; [|done|].
    + apply (IH _ _ d c); [done..|]. by rewrite Heq.
    + apply (IH _ _ d c); [done..|]. rewrite Heq, lookup_insert_ne; [done|].
      intros H. apply (f_equal length) in H. rewrite !length_app in H.
      simpl in H. destruct d; [done|]. simpl in H. lia.
Qed.

Lemma mkdir_from_preserves rest : ∀ base t t' q n,
  mkdir_from base rest t = Some t' → t !! q = Some n → t' !! q = Some n.
Proof.
  induction rest as [|x rest IH]; intros base t t' q n; simpl.
  - by intros [= ->].
  - destruct (t !! (base ++ [x])) as [[|?]|] eqn:E; [|done|].
    + apply IH.
    + intros H Hq. eapply IH; [done|]. rewrite lookup_insert_ne; [done|].
      intros <-. congruence.
Qed.

Lemma mkdir_from_new rest : ∀ base t t' q n,
  mkdir_from base rest t = Some t' → t' !! q = Some n →
  t !! q = Some n ∨ (n = Dir ∧ ∃ d, d `prefix_of` rest ∧ d ≠ [] ∧ q = base ++ d).
Proof.
  induction rest as [|x rest IH]; intros base t t' q n; simpl.
  - intros [= ->]. by left.
  - assert (∀ t1 : gmap path node, (t1 !! q = Some n
                   ∨ n = Dir ∧ ∃ d, d `prefix_of` rest ∧ d ≠ [] ∧ q = (base ++ [x]) ++ d) →
                  (t1 !! q = Some n
                   ∨ n = Dir ∧ ∃ d, d `prefix_of` x :: rest ∧ d ≠ [] ∧ q = base ++ d)) as Hup.
    { intros t1 [H|(-> & d & Hd & _ & ->)]; [by left|]. right. split; [done|].
      exists (x :: d). split_and!; [by apply prefix_cons|done|by rewrite <-app_assoc]. }
    destruct (t !! (base ++ [x])) as [[|?]|] eqn:E; [|done|].
    + intros H Hq. apply (Hup t). by eapply IH.
    + intros H Hq. destruct (IH _ _ _ _ _ H Hq) as [H1|H1].
      * destruct (decide (base ++ [x] = q)) as [<-|Hne].
        -- rewrite lookup_insert_eq in H1. injection H1 as <-. right.
           split; [done|]. exists [x]. split_and!; [|done..].
           by apply prefix_cons, prefix_nil.
        -- rewrite lookup_insert_ne in H1 by done. by left.
      * apply (Hup t). by right.
Qed.


(** ** Encoding *)

Lemma encodable_app a b : encodable (a ++ b) = encodable a && encodable b.
Proof. apply forallb_app. Qed.

Lemma str_cons a s : str (String a s) = N_of_ascii a :: str s.
Proof. reflexivity. Qed.

(** A literal holds code points below 256 only. *)
Lemma encodable_str s : encodable (str s) = true.
Proof.
  induction s as [|a s IH]; [done|].
  rewrite str_cons. change (encodable (N_of_ascii a :: str s))
    with (encodable_char (N_of_ascii a) && encodable (str s)).
  rewrite IH, andb_true_r. unfold encodable_char.
  apply orb_true_iff. left. apply N.ltb_lt.
  pose proof (N_ascii_bounded a). lia.
Qed.

Lemma encodable_fmt_d width n : encodable (fmt_d width n) = true.
Proof.
  unfold fmt_d. rewrite encodable_app, encodable_str, andb_true_r.
  induction (width - _)%nat as [|k IH]; [done|]. simpl. exact IH.
Qed.

Lemma encodable_str_of_Z n : encodable (str_of_Z n) = true.
Proof. apply encodable_str. Qed.

Lemma encodable_nil : encodable [] = true.
Proof. reflexivity. Qed.

Create Rewrite HintDb enc.
#[local] Hint Rewrite encodable_app encodable_str encodable_fmt_d
  encodable_str_of_Z encodable_nil : enc.

Lemma encodable_isoformat d : encodable (isoformat d) = true.
Proof.
  unfold isoformat, format_time, format_offset.
  repeat case_match; by autorewrite with enc.
Qed.

#[local] Hint Rewrite encodable_isoformat : enc.

Lemma encodable_metadata_line id d : encodable (metadata_line id d) = true.
Proof. unfold metadata_line. by autorewrite with enc. Qed.

Lemma encodable_progress_line count : encodable (progress_line count) = true.
Proof. unfold progress_line. by autorewrite with enc. Qed.

Lemma encodable_done_line count p :
  encodable (done_line count p) = encodable (path_str p).
Proof. unfold done_line. by autorewrite with enc. Qed.

Lemma take_while_forallb {A} (p : A → bool) l : forallb p l = true → take_while p l = l.
Proof.
  intros H. apply take_while_all, Forall_forall. intros x Hx.
  rewrite forallb_forall in H. apply H. by apply list_elem_of_In.
Qed.

Lemma take_while_app {A} (p : A → bool) a b :
  take_while p (a ++ b) = if forallb p a then a ++ take_while p b else take_while p a.
Proof.
  induction a as [|x a IH]; [done|]. simpl.
  destruct (p x); [|done]. simpl. rewrite IH. by destruct (forallb p a).
Qed.

(** Every write a history causes can be encoded exactly when the texts
    and the separator can: the metadata lines always can. *)
Lemma all_writes_writable separator include_meta msgs :
  forallb encodable (all_writes separator include_meta msgs) = writable separator msgs.
Proof.
  unfold all_writes, writable.
  induction (exported msgs) as [|msg ms IH]; [done|].
  cbn [mbind list_bind forallb]. rewrite forallb_app, IH. f_equal.
  unfold record_writes. rewrite forallb_app. cbn [forallb].
  rewrite andb_true_r. destruct include_meta; [|done].
  cbn [forallb]. by rewrite encodable_metadata_line.
Qed.

Lemma writable_all_writes separator include_meta msgs :
  writable separator msgs = true →
  forallb encodable (all_writes separator include_meta msgs) = true.
Proof. intros H. by rewrite all_writes_writable. Qed.

Lemma all_writes_completed separator include_meta msgs :
  forallb encodable (all_writes separator include_meta msgs) = true →
  completed separator include_meta msgs = length (exported msgs).
Proof.
  unfold all_writes, completed. intros H. f_equal. apply take_while_forallb.
  induction (exported msgs) as [|msg ms IH]; [done|].
  cbn [mbind list_bind] in H. rewrite forallb_app in H.
  apply andb_true_iff in H as [H1 H2]. cbn [forallb].
  unfold record_encodable at 1. by rewrite H1, IH.
Qed.

(** ** The export loop *)

(** The code's fallback chain computes the exported text, and a message is
    skipped exactly when it has no text. *)
Lemma message_text_exported msg : message_text msg = exported_text msg.
Proof. by destruct msg as [? ? [[|??]|] [[|??]|]]. Qed.

Lemma message_text_truthy msg : truthy (message_text msg) = has_text msg.
Proof. by destruct msg as [? ? [[|??]|] [[|??]|]]. Qed.

Lemma append_content_app a b n :
  append_content b (append_content a n) = append_content (a ++ b) n.
Proof. destruct n; simpl; [done|]. by rewrite app_assoc. Qed.

Lemma sink_add_add k ws1 ws2 : sink_add (sink_add k ws1) ws2 = sink_add k (ws1 ++ ws2).
Proof. unfold sink_add. simpl. by rewrite app_assoc. Qed.

Lemma wrote_nil f k w : sinks w !! f = Some k → wrote f k [] [] w = w.
Proof.
  intros Hf. destruct w as [env t sk nt out]. unfold wrote. simpl in *. f_equal.
  - apply alter_id. intros [|c] _; simpl; [done|]. by rewrite app_nil_r.
  - apply list_insert_id. rewrite Hf. f_equal.
    destruct k. unfold sink_add. simpl. by rewrite app_nil_r.
  - apply app_nil_r.
Qed.

Lemma wrote_wrote f k ws1 ws2 o1 o2 w :
  wrote f (sink_add k ws1) ws2 o2 (wrote f k ws1 o1 w)
  = wrote f k (ws1 ++ ws2) (o1 ++ o2) w.
Proof.
  unfold wrote. simpl. f_equal.
  - rewrite alter_alter_eq. apply alter_ext. intros n _. simpl.
    by rewrite append_content_app, concat_app.
  - by rewrite list_insert_insert_eq, sink_add_add.
  - by rewrite app_assoc.
Qed.

Lemma wrote_lookup f k ws out w :
  sinks w !! f = Some k → sinks (wrote f k ws out w) !! f = Some (sink_add k ws).
Proof. intros Hf. simpl. apply list_lookup_insert_eq. by eapply lookup_lt_Some. Qed.

Lemma file_write_run f s w k :
  sinks w !! f = Some k → sink_closed k = false → encodable s = true →
  file_write f s w = (Ok tt, wrote f k [s] [] w).
Proof.
  intros Hf Hc He. unfold file_write. rewrite Hf, Hc, He. cbn [negb]. f_equal.
  unfold wrote, set_sinks, set_fs, sink_add. simpl.
  by rewrite Hc, !app_nil_r.
Qed.

(** One write to a sink that has received [ws] so far: the string is added
    when it can be encoded, and otherwise the write raises and adds nothing. *)
Lemma file_write_wrote f s k ws out w :
  sinks w !! f = Some k → sink_closed k = false →
  file_write f s (wrote f k ws out w)
  = if encodable s then (Ok tt, wrote f k (ws ++ [s]) out w)
    else (Raise UnicodeEncodeError, wrote f k ws out w).
Proof.
  intros Hf Hc. destruct (encodable s) eqn:He.
  - rewrite (file_write_run _ _ _ (sink_add k ws)); [|by apply wrote_lookup|done..].
    by rewrite wrote_wrote, app_nil_r.
  - unfold file_write. rewrite (wrote_lookup _ _ _ _ _ Hf).
    cbn [sink_add sink_closed]. by rewrite Hc, He.
Qed.

Lemma print_wrote f k ws out l w :
  encodable l = true →
  print l (wrote f k ws out w) = (Ok tt, wrote f k ws (out ++ [l]) w).
Proof.
  intros He. unfold print. rewrite He. unfold log_stdout, wrote. simpl.
  by rewrite app_assoc.
Qed.

(** A message without text changes nothing: no write, no count, no print. *)
Lemma export_message_skip f separator include_meta msg count w :
  has_text msg = false →
  export_message f separator include_meta msg count w = (Ok count, w).
Proof.
  intros H. unfold export_message. by rewrite message_text_truthy, H.
Qed.

Lemma meta_line_metadata msg :
  meta_line msg ++ [LF] = metadata_line (msg_id msg) (msg_date msg).
Proof. unfold meta_line, metadata_line. by rewrite <-!app_assoc. Qed.

(** A message with text causes the writes of its record, as far as they
    can be encoded, and counts once when all of them could. *)
Lemma export_message_wrote f separator include_meta msg count k ws out w :
  has_text msg = true → sinks w !! f = Some k → sink_closed k = false →
  export_message f separator include_meta msg count (wrote f k ws out w)
  = if record_encodable separator include_meta msg
    then (Ok (count + 1)%Z,
          wrote f k (ws ++ record_writes separator include_meta msg)
                (out ++ progress_notices count 1) w)
    else (Raise UnicodeEncodeError,
          wrote f k (ws ++ take_while encodable (record_writes separator include_meta msg))
                out w).
Proof.
  intros H Hf Hc. unfold export_message, record_encodable, record_writes.
  rewrite message_text_truthy, H, message_text_exported, meta_line_metadata.
  cbn [negb].
  assert (∀ ws',
    (file_write f (exported_text msg) ;;
     file_write f separator ;;
     (if ((count + 1) `mod` 500 =? 0)%Z
      then print (progress_line (count + 1)) else mret tt) ;;
     mret (count + 1)%Z) (wrote f k ws' out w)
    = if forallb encodable [exported_text msg; separator]
      then (Ok (count + 1)%Z,
            wrote f k (ws' ++ [exported_text msg; separator])
                  (out ++ progress_notices count 1) w)
      else (Raise UnicodeEncodeError,
            wrote f k (ws' ++ take_while encodable [exported_text msg; separator])
                  out w)) as Htail.
  { intros ws'. rewrite bind_run, file_write_wrote by done.
    cbn [forallb take_while].
    destruct (encodable (exported_text msg)); [|by rewrite app_nil_r].
    rewrite bind_run, file_write_wrote by done.
    destruct (encodable separator); cbn [andb]; [|done].
    rewrite <-app_assoc. cbn [app progress_notices]. rewrite app_nil_r.
    rewrite bind_run. destruct (_ =? _)%Z.
    - by rewrite print_wrote by apply encodable_progress_line.
    - by rewrite app_nil_r. }
  destruct include_meta.
  - rewrite bind_run, file_write_wrote, encodable_metadata_line by done.
    rewrite Htail. cbn [app forallb take_while].
    rewrite encodable_metadata_line. cbn [andb].
    rewrite <-!app_assoc. cbn [app].
    destruct (encodable (exported_text msg)); [|done].
    by destruct (encodable separator).
  - rewrite bind_run. unfold mret at 1, M_ret at 1. cbv beta iota.
    cbn [app]. by rewrite Htail.
Qed.

Lemma all_writes_cons separator include_meta msg msgs :
  has_text msg = true →
  all_writes separator include_meta (msg :: msgs)
  = record_writes separator include_meta msg ++ all_writes separator include_meta msgs.
Proof. intros H. unfold all_writes, exported. cbn [List.filter]. by rewrite H. Qed.

Lemma all_writes_skip separator include_meta msg msgs :
  has_text msg = false →
  all_writes separator include_meta (msg :: msgs) = all_writes separator include_meta msgs.
Proof. intros H. unfold all_writes, exported. cbn [List.filter]. by rewrite H. Qed.

(** The loop over a history: every exported message is written in turn
    until a string cannot be encoded; the writes made are the encodable
    beginning of all the writes the history would cause. *)
Lemma export_loop_wrote f separator include_meta msgs : ∀ count k ws out w,
  sinks w !! f = Some k → sink_closed k = false →
  export_loop f separator include_meta msgs count (wrote f k ws out w)
  = (if forallb encodable (all_writes separator include_meta msgs)
     then Ok (count + Z.of_nat (length (exported msgs)))%Z
     else Raise UnicodeEncodeError,
     wrote f k (ws ++ take_while encodable (all_writes separator include_meta msgs))
           (out ++ progress_notices count (completed separator include_meta msgs)) w).
Proof.
  induction msgs as [|msg msgs IH]; intros count k ws out w Hf Hc.
  - cbn. by rewrite Z.add_0_r, !app_nil_r.
  - cbn [export_loop]. rewrite bind_run.
    destruct (has_text msg) eqn:Ht.
    + rewrite export_message_wrote, all_writes_cons by done.
      rewrite forallb_app, take_while_app.
      unfold completed, exported. cbn [List.filter]. rewrite Ht.
      fold (exported msgs). cbn [take_while].
      fold (record_encodable separator include_meta msg).
      destruct (record_encodable separator include_meta msg) eqn:Er.
      * rewrite IH by done. cbn [andb length progress_notices].
        fold (completed separator include_meta msgs).
        rewrite app_nil_r, <-!app_assoc. f_equal.
        destruct (forallb encodable _); [|done]. f_equal. lia.
      * cbn [andb length progress_notices]. by rewrite app_nil_r.
    + rewrite export_message_skip, all_writes_skip by done.
      rewrite IH by done. unfold completed, exported. cbn [List.filter].
      by rewrite Ht.
Qed.

Lemma export_loop_run f separator include_meta msgs count w k :
  sinks w !! f = Some k → sink_closed k = false →
  export_loop f separator include_meta msgs count w
  = (if forallb encodable (all_writes separator include_meta msgs)
     then Ok (count + Z.of_nat (length (exported msgs)))%Z
     else Raise UnicodeEncodeError,
     wrote f k (take_while encodable (all_writes separator include_meta msgs))
           (progress_notices count (completed separator include_meta msgs)) w).
Proof.
  intros Hf Hc. rewrite <-(wrote_nil f k w Hf) at 1.
  by rewrite export_loop_wrote.
Qed.

(** ** The pipeline *)

Lemma open_w_run p w :
  can_open (fs w) p = true →
  open_w p w
  = (Ok (length (sinks w)),
     set_sinks (λ l, l ++ [{| sink_path := p; sink_writes := []; sink_closed := false |}])
               (set_fs <[p:=File []]> w)).
Proof.
  unfold can_open, open_w. intros [H1 H2]%andb_true_iff.
  apply negb_true_iff in H1. by rewrite H1, H2.
Qed.

Lemma open_w_fail p w : can_open (fs w) p = false → open_w p w = (Raise OSError, w).
Proof.
  unfold can_open, open_w. intros H.
  destruct (is_dir (fs w) p); [done|]. simpl in H. by rewrite H.
Qed.

Lemma export_pipeline_unopenable tg e p separator include_meta w :
  can_open (fs w) p = false →
  export_pipeline tg e p separator include_meta w = (Raise OSError, w).
Proof.
  intros H. unfold export_pipeline, with_resource.
  by rewrite !bind_run, open_w_fail.
Qed.

Opaque done_line.

(** The whole pipeline, for a history [msgs] whose iteration ends as [fin]
    says: the sink receives the writes of the exported messages up to the
    first string that cannot be encoded and is closed again, whatever the
    result is. *)
Lemma export_pipeline_run tg e p separator include_meta w msgs fin :
  tg_iter_messages tg e = (msgs, fin) → can_open (fs w) p = true →
  export_pipeline tg e p separator include_meta w
  = (pipeline_result separator include_meta msgs fin p,
     pipeline_world e p
       (take_while encodable (all_writes separator include_meta msgs))
       (pipeline_output separator include_meta msgs fin p) w).
Proof.
  intros Hiter Hopen. unfold export_pipeline, with_resource.
  rewrite !bind_run, open_w_run by done. cbv beta.
  set (k0 := {| sink_path := p; sink_writes := []; sink_closed := false |}).
  set (w0 := set_sinks _ _).
  rewrite bind_run. unfold client_iter_messages at 1.
  rewrite bind_run. unfold modify at 1. cbv beta iota.
  unfold mret at 1, M_ret at 1. rewrite Hiter. cbn [fst snd].
  rewrite bind_run.
  rewrite (export_loop_run _ _ _ _ _ _ k0); [| |done].
  2:{ unfold w0, log_net, set_sinks. simpl.
      by rewrite (list_lookup_middle _ [] _ _ eq_refl). }
  assert (∀ ws out,
    set_sinks (λ l, match l !! length (sinks w) with
                    | Some k => <[length (sinks w):=
                                   {| sink_path := sink_path k;
                                      sink_writes := sink_writes k;
                                      sink_closed := true |}]> l
                    | None => l
                    end)
      (wrote (length (sinks w)) k0 ws out (log_net (NetIterMessages e) w0))
    = pipeline_world e p ws out w) as Hclose.
  { intros ws out. unfold pipeline_world, wrote, set_sinks, log_net, w0. simpl.
    f_equal.
    - by rewrite alter_insert_eq.
    - rewrite list_lookup_insert_eq by (rewrite length_app; simpl; lia).
      rewrite list_insert_insert_eq. simpl.
      rewrite <-(Nat.add_0_r (length (sinks w))) at 1.
      by rewrite insert_app_r. }
  unfold pipeline_output, pipeline_result.
  destruct (forallb encodable _) eqn:Eall.
  - rewrite (all_writes_completed _ _ _ Eall). rewrite Z.add_0_l.
    destruct fin as [x|]; simpl.
    + by rewrite Hclose, app_nil_r.
    + rewrite Hclose. unfold print.
      destruct (encodable (done_line _ _)); [|by rewrite app_nil_r].
      unfold log_stdout, pipeline_world. simpl. by rewrite app_assoc.
  - simpl. by rewrite Hclose, app_nil_r.
Qed.

Transparent done_line.

(** ** The client and its session file *)

Lemma session_save_environ tg s w : environ (session_save tg s w) = environ w.
Proof. unfold session_save. by destruct (tg_session_file tg s). Qed.

Lemma session_save_sinks tg s w : sinks (session_save tg s w) = sinks w.
Proof. unfold session_save. by destruct (tg_session_file tg s). Qed.

Lemma session_save_net tg s w : net (session_save tg s w) = net w.
Proof. unfold session_save. by destruct (tg_session_file tg s). Qed.

Lemma session_save_stdout tg s w : stdout (session_save tg s w) = stdout w.
Proof. unfold session_save. by destruct (tg_session_file tg s). Qed.

(** Saving the session touches the session file and nothing else. *)
Lemma session_save_lookup_ne tg s w q :
  tg_session_file tg s ≠ Some q → fs (session_save tg s w) !! q = fs w !! q.
Proof.
  unfold session_save. destruct (tg_session_file tg s) as [sp|]; [|done].
  intros Hne. simpl. apply lookup_insert_ne. congruence.
Qed.

Lemma session_save_file tg s w sp :
  tg_session_file tg s = Some sp →
  ∃ c, fs (session_save tg s w) !! sp = Some (File c).
Proof.
  unfold session_save. intros ->. eexists. simpl. apply lookup_insert_eq.
Qed.

Lemma session_usable_free tg s t :
  session_usable tg s t = true → session_file_free tg s t.
Proof.
  unfold session_usable. intros H sp Hsp. rewrite Hsp in H.
  apply andb_true_iff in H as [[H _]%andb_true_iff _]. by apply negb_true_iff.
Qed.

Lemma session_save_is_dir tg s w q :
  session_file_free tg s (fs w) →
  is_dir (fs (session_save tg s w)) q = is_dir (fs w) q.
Proof.
  unfold session_file_free, session_save.
  destruct (tg_session_file tg s) as [sp|]; [|done].
  intros H1. specialize (H1 sp eq_refl).
  destruct (decide (sp = q)) as [->|Hne].
  - rewrite H1. unfold is_dir in *. destruct q; [done|].
    simpl. by rewrite lookup_insert_eq.
  - unfold is_dir. destruct q; [done|]. simpl. by rewrite lookup_insert_ne.
Qed.

Lemma session_save_free tg s w :
  session_file_free tg s (fs w) → session_file_free tg s (fs (session_save tg s w)).
Proof. intros H sp Hsp. rewrite session_save_is_dir by done. by apply H. Qed.

Lemma session_save_can_open tg s w p :
  session_file_free tg s (fs w) →
  can_open (fs (session_save tg s w)) p = can_open (fs w) p.
Proof. intros H. unfold can_open. by rewrite !session_save_is_dir. Qed.

Lemma client_new_run tg s w :
  session_usable tg s (fs w) = true →
  client_new tg s w = (Ok tt, session_save tg s w).
Proof.
  unfold client_new, session_usable, session_save.
  destruct (tg_session_file tg s) as [sp|]; [|done].
  intros [[H1 H2]%andb_true_iff H3]%andb_true_iff.
  apply negb_true_iff in H1. rewrite H1, H2.
  by destruct (tg_session_open tg _).
Qed.

Lemma client_new_fail tg s w :
  session_usable tg s (fs w) = false →
  ∃ x, client_new tg s w = (Raise x, w).
Proof.
  unfold client_new, session_usable.
  destruct (tg_session_file tg s) as [sp|]; [|done].
  intros H. destruct (is_dir (fs w) sp); [by eexists|].
  destruct (is_dir (fs w) (parent sp)); [|by eexists].
  destruct (tg_session_open tg _); [by eexists|done].
Qed.

(** The [async with] block around [body] when the client can be
    constructed and started: the body runs in the connected world, and the
    client is disconnected whatever the body does. *)
Lemma with_client_run {A} tg session api_id api_hash (body : unit → M A) w :
  session_usable tg session (fs w) = true →
  tg_start tg = None →
  with_resource (client_new tg session ;; client_start tg session api_id api_hash)
                (λ _, client_disconnect tg session) body w
  = ((body tt (session_save tg session
                 (log_net (NetStart session api_id api_hash)
                    (session_save tg session w)))).1,
     disconnected tg session
       (body tt (session_save tg session
                   (log_net (NetStart session api_id api_hash)
                      (session_save tg session w)))).2).
Proof.
  intros Hu Hst. unfold with_resource, client_start.
  rewrite !bind_run, client_new_run by done.
  rewrite !bind_run. unfold modify at 1, lift at 1. cbv beta iota.
  rewrite Hst. cbn [of_outcome]. unfold modify at 1.
  rewrite bind_run. cbv beta iota.
  by destruct (body tt _) as [[a|x] w2].
Qed.

Lemma with_client_down {A} tg session api_id api_hash (body : unit → M A) w x :
  session_usable tg session (fs w) = true →
  tg_start tg = Some x →
  with_resource (client_new tg session ;; client_start tg session api_id api_hash)
                (λ _, client_disconnect tg session) body w
  = (Raise x, log_net (NetStart session api_id api_hash) (session_save tg session w)).
Proof.
  intros Hu Hst. unfold with_resource, client_start.
  rewrite !bind_run, client_new_run by done.
  rewrite !bind_run. unfold modify at 1, lift at 1. cbv beta iota.
  by rewrite Hst.
Qed.

Lemma with_client_unusable {A} tg session api_id api_hash (body : unit → M A) w :
  session_usable tg session (fs w) = false →
  ∃ x,
    with_resource (client_new tg session ;; client_start tg session api_id api_hash)
                  (λ _, client_disconnect tg session) body w
    = (Raise x, w).
Proof.
  intros Hu. destruct (client_new_fail _ _ _ Hu) as [x Hx]. exists x.
  unfold with_resource. by rewrite !bind_run, Hx.
Qed.

(** What the connected, the started and the disconnected world keep. *)
Lemma connected_world_lookup_ne tg w api_id api_hash t q :
  tg_session_file tg (session_name w) ≠ Some q →
  fs (connected_world tg w api_id api_hash t) !! q = t !! q.
Proof.
  intros Hne. unfold connected_world.
  rewrite session_save_lookup_ne by done. cbn [fs log_net].
  by rewrite session_save_lookup_ne.
Qed.

Lemma connected_world_file tg w api_id api_hash t sp :
  tg_session_file tg (session_name w) = Some sp →
  ∃ c, fs (connected_world tg w api_id api_hash t) !! sp = Some (File c).
Proof. intros H. by apply session_save_file. Qed.

Lemma connected_world_can_open tg w api_id api_hash t p :
  session_usable tg (session_name w) t = true →
  can_open (fs (connected_world tg w api_id api_hash t)) p = can_open t p.
Proof.
  intros Hu%session_usable_free. unfold connected_world.
  rewrite session_save_can_open; cbn [fs log_net];
    [|by apply session_save_free].
  by rewrite session_save_can_open.
Qed.

Lemma connected_world_is_dir tg w api_id api_hash t p :
  session_usable tg (session_name w) t = true →
  is_dir (fs (connected_world tg w api_id api_hash t)) p = is_dir t p.
Proof.
  intros Hu%session_usable_free. unfold connected_world.
  rewrite session_save_is_dir; cbn [fs log_net];
    [|by apply session_save_free].
  by rewrite session_save_is_dir.
Qed.

Lemma connected_world_rest tg w api_id api_hash t :
  environ (connected_world tg w api_id api_hash t) = environ w
  ∧ sinks (connected_world tg w api_id api_hash t) = sinks w
  ∧ stdout (connected_world tg w api_id api_hash t) = stdout w
  ∧ net (connected_world tg w api_id api_hash t)
    = net w ++ [NetStart (session_name w) api_id api_hash].
Proof.
  unfold connected_world.
  rewrite session_save_environ, session_save_sinks, session_save_stdout,
    session_save_net. cbn [environ sinks stdout net log_net].
  by rewrite session_save_environ, session_save_sinks, session_save_stdout,
    session_save_net.
Qed.

Lemma started_world_fs tg channel try_join w api_id api_hash t e :
  fs (started_world tg channel try_join w api_id api_hash t e)
  = fs (connected_world tg w api_id api_hash t).
Proof. unfold started_world. by destruct try_join. Qed.

Lemma started_world_rest tg channel try_join w api_id api_hash t e :
  environ (started_world tg channel try_join w api_id api_hash t e) = environ w
  ∧ sinks (started_world tg channel try_join w api_id api_hash t e) = sinks w
  ∧ stdout (started_world tg channel try_join w api_id api_hash t e) = stdout w
  ∧ net (started_world tg channel try_join w api_id api_hash t e)
    = net w ++ [NetStart (session_name w) api_id api_hash;
                NetGetEntity (parse_channel_identifier channel)]
      ++ (if try_join then [NetJoin e] else []).
Proof.
  destruct (connected_world_rest tg w api_id api_hash t) as (He & Hs & Ho & Hn).
  unfold started_world. destruct try_join; cbn; rewrite ?He, ?Hs, ?Ho, ?Hn;
    split_and!; try done; by rewrite <-!app_assoc.
Qed.

Lemma disconnected_rest tg s w :
  environ (disconnected tg s w) = environ w
  ∧ sinks (disconnected tg s w) = sinks w
  ∧ stdout (disconnected tg s w) = stdout w
  ∧ net (disconnected tg s w) = net w ++ [NetDisconnect].
Proof.
  unfold disconnected.
  by rewrite session_save_environ, session_save_sinks, session_save_stdout,
    session_save_net.
Qed.

Lemma disconnected_lookup_ne tg s w q :
  tg_session_file tg s ≠ Some q → fs (disconnected tg s w) !! q = fs w !! q.
Proof. intros H. unfold disconnected. by rewrite session_save_lookup_ne. Qed.

(** ** Whole runs *)




(** The world a run leaves when it got as far as the pipeline. *)
Lemma final_world tg channel try_join w api_id api_hash t e p ws out :
  tg_session_file tg (session_name w) ≠ Some p →
  fs (disconnected tg (session_name w)
        (pipeline_world e p ws out
           (started_world tg channel try_join w api_id api_hash t e))) !! p
  = Some (File (concat ws))
  ∧ sinks (disconnected tg (session_name w)
             (pipeline_world e p ws out
                (started_world tg channel try_join w api_id api_hash t e)))
    = sinks w ++ [{| sink_path := p; sink_writes := ws; sink_closed := true |}]
  ∧ stdout (disconnected tg (session_name w)
              (pipeline_world e p ws out
                 (started_world tg channel try_join w api_id api_hash t e)))
    = stdout w ++ out
  ∧ ∀ q, q ≠ p → tg_session_file tg (session_name w) ≠ Some q →
      fs (disconnected tg (session_name w)
            (pipeline_world e p ws out
               (started_world tg channel try_join w api_id api_hash t e))) !! q
      = t !! q.
Proof.
  intros Hne.
  destruct (started_world_rest tg channel try_join w api_id api_hash t e)
    as (_ & Hs & Ho & _).
  destruct (disconnected_rest tg (session_name w)
              (pipeline_world e p ws out
                 (started_world tg channel try_join w api_id api_hash t e)))
    as (_ & Hs' & Ho' & _).
  split_and!.
  - rewrite disconnected_lookup_ne by done. cbn [fs pipeline_world].
    apply lookup_insert_eq.
  - rewrite Hs'. cbn [sinks pipeline_world]. by rewrite Hs.
  - rewrite Ho'. cbn [stdout pipeline_world]. by rewrite Ho.
  - intros q Hq Hsq. rewrite disconnected_lookup_ne by done.
    cbn [fs pipeline_world]. rewrite lookup_insert_ne by done.
    rewrite started_world_fs. by apply connected_world_lookup_ne.
Qed.

Lemma progress_notices_counts n : ∀ count,
  progress_notices count n
  = (λ c, str "Wrote " ++ str (pretty c) ++ str " messages so far" ++ [8230])
    <$> filter (λ k, (k `mod` 500 = 0)%Z) (seqZ (count + 1) (Z.of_nat n)).
Proof.
  induction n as [|n IH]; intros count; [done|].
  cbn [progress_notices]. rewrite seqZ_cons by lia.
  replace (Z.pred (Z.of_nat (S n))) with (Z.of_nat n) by lia.
  replace (Z.succ (count + 1)) with (count + 1 + 1)%Z by lia.
  rewrite filter_cons, IH.
  destruct (Z.eqb_spec ((count + 1) `mod` 500) 0) as [E|E].
  - by rewrite decide_True.
  - by rewrite decide_False.
Qed.

Section Runs.
Context (py_int : pystr → option Z).

(** The credential check, as far as it goes. *)
Lemma preflight_run {A} (k : Z → option pystr → pystr → M A) w :
  ((api_id ← environ_get_default (str "TELEGRAM_API_ID") (str "0") ≫= int_of py_int;
    api_hash ← environ_get (str "TELEGRAM_API_HASH");
    session ← environ_get_default (str "TELEGRAM_SESSION") (str "telegram_session");
    k api_id api_hash session) w)
  = match py_int (default (str "0") (environ w !! str "TELEGRAM_API_ID")) with
    | Some api_id =>
        k api_id (environ w !! str "TELEGRAM_API_HASH")
          (default (str "telegram_session") (environ w !! str "TELEGRAM_SESSION")) w
    | None => (Raise ValueError, w)
    end.
Proof.
  rewrite !bind_run. unfold environ_get_default at 1, gets at 1, int_of, lift.
  by destruct (py_int _).
Qed.

Lemma mkdir_parents_run d w t :
  mkdir_from [] d (fs w) = Some t → mkdir_parents d w = (Ok tt, set_fs (λ _, t) w).
Proof. unfold mkdir_parents. by intros ->. Qed.

Lemma run_after_credentials tg channel p separator include_meta try_join
    w api_id api_hash :
  credentials_ok py_int w api_id api_hash →
  export_channel_messages py_int tg channel p separator include_meta try_join w
  = (mkdir_parents (parent p) ;;
     with_resource (client_new tg (session_name w) ;;
                    client_start tg (session_name w) api_id api_hash)
                   (λ _, client_disconnect tg (session_name w)) (λ _,
       entity ← ensure_joined tg (parse_channel_identifier channel) try_join;
       export_pipeline tg entity p separator include_meta)) w.
Proof.
  intros (Hid & Hnz & Hh & Hht). unfold export_channel_messages.
  rewrite preflight_run, Hid, Hh. apply Z.eqb_neq in Hnz. rewrite Hnz.
  cbn [truthy_opt]. by rewrite Hht.
Qed.

Lemma starts_credentials tg channel p try_join w api_id api_hash t e :
  starts py_int tg channel p try_join w api_id api_hash t e →
  credentials_ok py_int w api_id api_hash.
Proof. intros (? & ? & ? & ? & _). by split_and!. Qed.

(** A run whose startup succeeds gets as far as the pipeline, in the
    started world. *)
Lemma run_after_startup tg channel p separator include_meta try_join
    w api_id api_hash t e :
  starts py_int tg channel p try_join w api_id api_hash t e →
  export_channel_messages py_int tg channel p separator include_meta try_join w
  = ((export_pipeline tg e p separator include_meta
        (started_world tg channel try_join w api_id api_hash t e)).1,
     disconnected tg (session_name w)
       (export_pipeline tg e p separator include_meta
          (started_world tg channel try_join w api_id api_hash t e)).2).
Proof.
  intros Hs. pose proof (starts_credentials _ _ _ _ _ _ _ _ _ Hs) as Hc.
  destruct Hs as (_ & _ & _ & _ & Hmk & Hu & Hne & Hst & He & Hj).
  rewrite (run_after_credentials _ _ _ _ _ _ _ _ _ Hc).
  rewrite bind_run, (mkdir_parents_run _ _ t) by done.
  rewrite with_client_run by done.
  rewrite bind_run, (ensure_joined_run _ _ _ _ e) by done.
  reflexivity.
Qed.

(** A run whose startup succeeds and that can open its output file is the
    pipeline run in the started world, followed by the disconnect. *)
Lemma export_channel_messages_run tg channel p separator include_meta try_join
    w api_id api_hash t e msgs fin :
  starts py_int tg channel p try_join w api_id api_hash t e →
  can_open t p = true →
  tg_iter_messages tg e = (msgs, fin) →
  export_channel_messages py_int tg channel p separator include_meta try_join w
  = (pipeline_result separator include_meta msgs fin p,
     disconnected tg (session_name w)
       (pipeline_world e p
          (take_while encodable (all_writes separator include_meta msgs))
          (pipeline_output separator include_meta msgs fin p)
          (started_world tg channel try_join w api_id api_hash t e))).
Proof.
  intros Hs Hopen Hiter. rewrite (run_after_startup _ _ _ _ _ _ _ _ _ _ _ Hs).
  destruct Hs as (_ & _ & _ & _ & Hmk & Hu & Hne & Hst & He & Hj).
  rewrite (export_pipeline_run _ _ _ _ _ _ msgs fin); [done..|].
  by rewrite started_world_fs, connected_world_can_open.
Qed.






Lemma mkdir_parent_changes p t t' :
  mkdir_from [] (parent p) t = Some t' →
  t' !! p = t !! p
  ∧ (∀ q n, t !! q = Some n → t' !! q = Some n)
  ∧ (∀ q n, t' !! q = Some n →
       t !! q = Some n ∨ (n = Dir ∧ q `prefix_of` parent p)).
Proof.
  intros Hmk. split_and!.
  - by apply mkdir_parent_lookup.
  - intros q n. by eapply mkdir_from_preserves.
  - intros q n Hn.
    destruct (mkdir_from_new _ _ _ _ _ _ Hmk Hn) as [?|(-> & d & Hd & _ & ->)];
      [by left|by right].
Qed.

(** The run of a channel that cannot be resolved. *)
Lemma unresolved_run tg channel p separator include_meta try_join
    w api_id api_hash t x :
  credentials_ok py_int w api_id api_hash →
  mkdir_from [] (parent p) (fs w) = Some t →
  session_usable tg (session_name w) t = true →
  tg_start tg = None →
  tg_get_entity tg (parse_channel_identifier channel) = inl x →
  export_channel_messages py_int tg channel p separator include_meta try_join w
  = (Raise x,
     disconnected tg (session_name w)
       (log_net (NetGetEntity (parse_channel_identifier channel))
          (connected_world tg w api_id api_hash t))).
Proof.
  intros Hc Hmk Hu Hst He.
  rewrite (run_after_credentials _ _ _ _ _ _ _ _ _ Hc).
  rewrite bind_run, (mkdir_parents_run _ _ t) by done.
  rewrite with_client_run by done.
  by rewrite bind_run, (ensure_joined_unresolved _ _ _ _ x).
Qed.

(** C7 (as amended). Missing credentials end the run before anything
    happens: the world is unchanged, with no call to the provider and no
    change to the file system. A channel that cannot be resolved ends the
    run with the lookup's error before the sink is created: no file object
    exists and nothing is printed, and the file system differs from what it
    was in two ways only: the directories on the way to the output file
    have been made, and the client library has written its session file.
    Every other entry is as it was; unless it is the session file itself,
    the output file is neither created nor truncated. *)
Theorem early_errors_leave_no_output tg channel p separator include_meta try_join w :
  py_int (str "0") = Some 0%Z →
  missing_credentials_in w ∨ (∃ y, unresolved py_int tg channel p w y) →
  ∃ x w',
    export_channel_messages py_int tg channel p separator include_meta try_join w
    = (Raise x, w')
    ∧ sinks w' = sinks w
    ∧ stdout w' = stdout w
    ∧ (missing_credentials_in w → w' = w)
    ∧ (∀ y, unresolved py_int tg channel p w y → x = y)
    ∧ (∀ q n, tg_session_file tg (session_name w) ≠ Some q →
         fs w !! q = Some n → fs w' !! q = Some n)
    ∧ (∀ q n, tg_session_file tg (session_name w) ≠ Some q →
         fs w' !! q = Some n →
         fs w !! q = Some n ∨ (n = Dir ∧ q `prefix_of` parent p))
    ∧ (tg_session_file tg (session_name w) ≠ Some p → fs w' !! p = fs w !! p).
Proof.
  intros Hzero H.
  assert (∀ y, unresolved py_int tg channel p w y → ¬ missing_credentials_in w) as Hexcl.
  { intros y (api_id & h & t & Hid & Hnz & Hh & Hht & _) [Hm|Hm].
    - rewrite Hm in Hid. simpl in Hid. congruence.
    - rewrite Hh in Hm. simpl in Hm. congruence. }
  destruct H as [Hm|[y Hy]].
  - assert (∃ x, export_channel_messages py_int tg channel p separator
                   include_meta try_join w = (Raise x, w)) as [x Hx].
    { unfold export_channel_messages. rewrite preflight_run.
      destruct Hm as [Hm|Hm].
      - rewrite Hm. cbn [default]. rewrite Hzero. cbn [Z.eqb orb]. by eexists.
      - rewrite Hm. cbn [negb].
        destruct (py_int (default _ _)) as [api_id|]; [|by eexists].
        rewrite orb_true_r. by eexists. }
    exists x, w. split_and!; try done.
    + intros z Hz. by destruct (Hexcl z Hz).
    + intros q n _ Hn. by left.
  - pose proof Hy as (api_id & h & t & Hid & Hnz & Hh & Hht & Hmk & Hu & Hst & He).
    rewrite (unresolved_run _ _ _ _ _ _ _ api_id h t y) by (done || by split_and!).
    destruct (mkdir_parent_changes _ _ _ Hmk) as (Hp & Hkeep & Hnew).
    destruct (connected_world_rest tg w api_id h t) as (_ & Hs & Ho & _).
    destruct (disconnected_rest tg (session_name w)
                (log_net (NetGetEntity (parse_channel_identifier channel))
                   (connected_world tg w api_id h t))) as (_ & Hs' & Ho' & _).
    assert (∀ q, tg_session_file tg (session_name w) ≠ Some q →
                 fs (disconnected tg (session_name w)
                       (log_net (NetGetEntity (parse_channel_identifier channel))
                          (connected_world tg w api_id h t))) !! q = t !! q) as Hfs.
    { intros q Hq. rewrite disconnected_lookup_ne by done. cbn [fs log_net].
      by apply connected_world_lookup_ne. }
    eexists _, _. split_and!; [done|by rewrite Hs'|by rewrite Ho'| | | | |].
    + intros Hm. by destruct (Hexcl y Hy).
    + intros z (? & ? & ? & _ & _ & _ & _ & _ & _ & _ & He'). congruence.
    + intros q n Hq Hn. rewrite Hfs by done. by apply Hkeep.
    + intros q n Hq. rewrite Hfs by done. apply Hnew.
    + intros Hq. by rewrite Hfs.
Qed.

(** X8. An application id that [int] cannot read ends the run with
    [ValueError] before the credentials are even checked, whatever the
    application key is; nothing has happened by then. *)
Theorem unreadable_api_id_raises_value_error tg channel p separator include_meta
    try_join w :
  py_int (default (str "0") (environ w !! str "TELEGRAM_API_ID")) = None →
  export_channel_messages py_int tg channel p separator include_meta try_join w
  = (Raise ValueError, w).
Proof.
  intros H. unfold export_channel_messages. by rewrite preflight_run, H.
Qed.

(** X9. An application id that reads as zero, or an application key that
    is absent or empty, ends the run with [SystemExit] and the message
    about the missing variables; nothing has happened by then. *)
Theorem zero_id_or_empty_key_exits tg channel p separator include_meta try_join w n :
  py_int (default (str "0") (environ w !! str "TELEGRAM_API_ID")) = Some n →
  n = 0%Z ∨ truthy_opt (environ w !! str "TELEGRAM_API_HASH") = false →
  export_channel_messages py_int tg channel p separator include_meta try_join w
  = (Raise (SystemExit missing_credentials), w).
Proof.
  intros Hn H. unfold export_channel_messages. rewrite preflight_run, Hn.
  destruct H as [-> | ->]; [done|]. cbn [negb]. by rewrite orb_true_r.
Qed.

(** X10. When a regular file stands where a directory on the way to the
    output file is needed, the run ends with [OSError] before the provider
    is contacted, and nothing has changed. *)
Theorem blocked_parent_raises_before_network tg channel p separator include_meta
    try_join w api_id api_hash d c :
  credentials_ok py_int w api_id api_hash →
  d `prefix_of` parent p → d ≠ [] → fs w !! d = Some (File c) →
  export_channel_messages py_int tg channel p separator include_meta try_join w
  = (Raise OSError, w).
Proof.
  intros Hc Hpre Hne Hd. rewrite (run_after_credentials _ _ _ _ _ _ _ _ _ Hc).
  rewrite bind_run. unfold mkdir_parents.
  by rewrite (mkdir_from_blocked _ [] _ d c).
Qed.

(** X11. When the session cannot be started, the run ends with the error
    of the start: the provider saw the start and nothing else (no lookup,
    no disconnect), no sink exists and nothing is printed; by then the
    parent directories have been made and the client library has written
    its session file, and nothing else in the file system has changed. *)
Theorem failed_start_ends_the_run tg channel p separator include_meta try_join
    w api_id api_hash t x :
  credentials_ok py_int w api_id api_hash →
  mkdir_from [] (parent p) (fs w) = Some t →
  session_usable tg (session_name w) t = true →
  tg_start tg = Some x →
  ∃ w',
    export_channel_messages py_int tg channel p separator include_meta try_join w
    = (Raise x, w')
    ∧ net w' = net w ++ [NetStart (session_name w) api_id api_hash]
    ∧ sinks w' = sinks w ∧ stdout w' = stdout w
    ∧ (∀ q, tg_session_file tg (session_name w) ≠ Some q → fs w' !! q = t !! q)
    ∧ (∀ sp, tg_session_file tg (session_name w) = Some sp →
         ∃ c, fs w' !! sp = Some (File c)).
Proof.
  intros Hc Hmk Hu Hst. rewrite (run_after_credentials _ _ _ _ _ _ _ _ _ Hc).
  rewrite bind_run, (mkdir_parents_run _ _ t) by done.
  rewrite (with_client_down _ _ _ _ _ _ x) by done.
  eexists. split_and!; [done|..].
  - cbn [net log_net]. by rewrite session_save_net.
  - cbn [sinks log_net]. by rewrite session_save_sinks.
  - cbn [stdout log_net]. by rewrite session_save_stdout.
  - intros q Hq. cbn [fs log_net]. by rewrite session_save_lookup_ne.
  - intros sp Hsp. cbn [fs log_net]. by apply session_save_file.
Qed.

(** X13. Once the client session has started it is always disconnected:
    however the lookup, the join, the opening of the file and the history
    go, the last call the provider sees is the disconnect. The one run
    with good credentials that does not get there is the run whose client
    cannot be constructed, because its session file cannot be opened: it
    ends with the error of the constructor and the provider is never
    contacted. *)
Theorem started_session_is_disconnected tg channel p separator include_meta
    try_join w api_id api_hash t :
  credentials_ok py_int w api_id api_hash →
  mkdir_from [] (parent p) (fs w) = Some t →
  tg_start tg = None →
  ∃ r w',
    export_channel_messages py_int tg channel p separator include_meta try_join w
    = (r, w')
    ∧ (session_usable tg (session_name w) t = true →
         last (net w') = Some NetDisconnect)
    ∧ (session_usable tg (session_name w) t = false →
         (∃ x, r = Raise x) ∧ net w' = net w).
Proof.
  intros Hc Hmk Hst. rewrite (run_after_credentials _ _ _ _ _ _ _ _ _ Hc).
  rewrite bind_run, (mkdir_parents_run _ _ t) by done.
  destruct (session_usable tg (session_name w) t) eqn:Hu.
  - rewrite with_client_run by done.
    eexists _, _. split_and!; [done| |done]. intros _.
    destruct (disconnected_rest tg (session_name w)
                ((ensure_joined tg (parse_channel_identifier channel) try_join
                  ≫= λ entity, export_pipeline tg entity p separator include_meta)
                   (session_save tg (session_name w)
                      (log_net (NetStart (session_name w) api_id api_hash)
                         (session_save tg (session_name w) (set_fs (λ _, t) w))))).2)
      as (_ & _ & _ & Hn).
    cbn [snd]. rewrite Hn. apply last_snoc.
  - destruct (with_client_unusable tg (session_name w) api_id api_hash
                (λ _, ensure_joined tg (parse_channel_identifier channel) try_join
                      ≫= λ entity, export_pipeline tg entity p separator include_meta)
                (set_fs (λ _, t) w) Hu) as [x ->].
    eexists _, _. split_and!; [done|done|]. intros _. split; [by eexists|done].
Qed.

(** X12. When the output path names an existing directory, the run gets as
    far as the lookup and the join and then ends with [OSError]: the
    history is never requested, no sink is created, nothing is printed, the
    session is disconnected, and apart from the client library's session
    file the file system is as the making of the directories left it. *)
Theorem directory_as_output_fails_after_resolution tg channel p separator
    include_meta try_join w api_id api_hash t e :
  starts py_int tg channel p try_join w api_id api_hash t e →
  is_dir (fs w) p = true →
  ∃ w',
    export_channel_messages py_int tg channel p separator include_meta try_join w
    = (Raise OSError, w')
    ∧ net w' = net w ++ [NetStart (session_name w) api_id api_hash;
                         NetGetEntity (parse_channel_identifier channel)]
               ++ (if try_join then [NetJoin e] else []) ++ [NetDisconnect]
    ∧ sinks w' = sinks w ∧ stdout w' = stdout w
    ∧ ∀ q, tg_session_file tg (session_name w) ≠ Some q → fs w' !! q = t !! q.
Proof.
  intros Hs Hdir. rewrite (run_after_startup _ _ _ _ _ _ _ _ _ _ _ Hs).
  destruct Hs as (_ & _ & _ & _ & Hmk & Hu & Hne & Hst & He & Hj).
  rewrite export_pipeline_unopenable.
  2:{ unfold can_open.
      rewrite started_world_fs, connected_world_is_dir by done.
      replace (is_dir t p) with (is_dir (fs w) p); [by rewrite Hdir|].
      unfold is_dir. destruct p; [done|].
      by rewrite (mkdir_parent_lookup _ _ _ Hmk). }
  cbn [fst snd].
  destruct (started_world_rest tg channel try_join w api_id api_hash t e)
    as (_ & Hk & Ho & Hn).
  destruct (disconnected_rest tg (session_name w)
              (started_world tg channel try_join w api_id api_hash t e))
    as (_ & Hk' & Ho' & Hn').
  eexists. split_and!; [done|..].
  - by rewrite Hn', Hn, <-!app_assoc.
  - by rewrite Hk'.
  - by rewrite Ho'.
  - intros q Hq. rewrite disconnected_lookup_ne, started_world_fs by done.
    by apply connected_world_lookup_ne.
Qed.

(** X14. A run that gets to open its output file changes nothing in the
    file system but that file and the client library's session file,
    however the run ends: every other file and directory is kept as it
    was, and the only other new entries are directories on the way to the
    output file. *)
Theorem run_changes_only_the_output_file tg channel p separator include_meta
    try_join w api_id api_hash t e msgs fin :
  starts py_int tg channel p try_join w api_id api_hash t e →
  can_open t p = true →
  tg_iter_messages tg e = (msgs, fin) →
  ∃ r w',
    export_channel_messages py_int tg channel p separator include_meta try_join w
    = (r, w')
    ∧ (∀ q n, q ≠ p → tg_session_file tg (session_name w) ≠ Some q →
         fs w !! q = Some n → fs w' !! q = Some n)
    ∧ (∀ q n, q ≠ p → tg_session_file tg (session_name w) ≠ Some q →
         fs w' !! q = Some n →
         fs w !! q = Some n ∨ (n = Dir ∧ q `prefix_of` parent p)).
Proof.
  intros Hs Hopen Hiter.
  rewrite (export_channel_messages_run _ _ _ separator include_meta
             _ _ _ _ _ _ _ _ Hs Hopen Hiter).
  destruct Hs as (_ & _ & _ & _ & Hmk & _ & Hne & _).
  destruct (final_world tg channel try_join w api_id api_hash t e p
              (take_while encodable (all_writes separator include_meta msgs))
              (pipeline_output separator include_meta msgs fin p) Hne)
    as (_ & _ & _ & Hfs).
  destruct (mkdir_parent_changes _ _ _ Hmk) as (_ & Hkeep & Hnew).
  eexists _, _. split_and!; [done| |].
  - intros q n Hq Hsq Hn. rewrite Hfs by done. by apply Hkeep.
  - intros q n Hq Hsq. rewrite Hfs by done. apply Hnew.
Qed.

(** X15. With an output path of a single component, such as the default
    [channel_export.md], no directory has to be made, so a channel that
    cannot be resolved leaves the file system as it was but for the client
    library's session file. *)
Theorem bare_file_name_untouched_on_resolution_error tg channel p separator
    include_meta try_join w x :
  unresolved py_int tg channel p w x →
  (length p ≤ 1)%nat →
  ∃ w',
    export_channel_messages py_int tg channel p separator include_meta try_join w
    = (Raise x, w')
    ∧ (∀ q, tg_session_file tg (session_name w) ≠ Some q → fs w' !! q = fs w !! q)
    ∧ sinks w' = sinks w ∧ stdout w' = stdout w.
Proof.
  intros (api_id & h & t & Hid & Hnz & Hh & Hht & Hmk & Hu & Hst & He) Hlen.
  assert (t = fs w) as ->.
  { unfold parent in Hmk. replace (length p - 1)%nat with 0%nat in Hmk by lia.
    simpl in Hmk. congruence. }
  rewrite (unresolved_run _ _ _ _ _ _ _ api_id h (fs w) x) by (done || by split_and!).
  destruct (connected_world_rest tg w api_id h (fs w)) as (_ & Hk & Ho & _).
  destruct (disconnected_rest tg (session_name w)
              (log_net (NetGetEntity (parse_channel_identifier channel))
                 (connected_world tg w api_id h (fs w)))) as (_ & Hk' & Ho' & _).
  eexists. split_and!; [done| |by rewrite Hk'|by rewrite Ho'].
  intros q Hq. rewrite disconnected_lookup_ne by done. cbn [fs log_net].
  by apply connected_world_lookup_ne.
Qed.


(** X17. On a normal end of a history with a separator, texts and an
    output path that UTF-8 can encode, the run prints one progress notice
    for every multiple of 500 up to the number of exported messages, in
    increasing order, and then the final line with that number; nothing
    else is printed. *)
Theorem progress_every_500_messages tg channel p separator include_meta
    try_join w api_id api_hash t e msgs :
  starts py_int tg channel p try_join w api_id api_hash t e →
  can_open t p = true →
  tg_iter_messages tg e = (msgs, None) →
  writable separator msgs = true →
  encodable (path_str p) = true →
  ∃ w',
    export_channel_messages py_int tg channel p separator include_meta try_join w
    = (Ok tt, w')
    ∧ stdout w'
      = stdout w
        ++ ((λ c, str "Wrote " ++ str (pretty c) ++ str " messages so far" ++ [8230])
            <$> progress_counts (length (exported msgs)))
        ++ [str "Done. Wrote " ++ str (pretty (Z.of_nat (length (exported msgs))))
            ++ str " messages to " ++ path_str p].
Proof.
  intros Hs Hopen Hiter Hw Hp.
  rewrite (export_channel_messages_run _ _ _ separator include_meta
             _ _ _ _ _ _ _ _ Hs Hopen Hiter).
  pose proof (writable_all_writes _ include_meta _ Hw) as Hall.
  destruct Hs as (_ & _ & _ & _ & _ & _ & Hne & _).
  destruct (final_world tg channel try_join w api_id api_hash t e p
              (take_while encodable (all_writes separator include_meta msgs))
              (pipeline_output separator include_meta msgs None p) Hne)
    as (_ & _ & Ho & _).
  unfold pipeline_output, pipeline_result in *.
  rewrite Hall, encodable_done_line, Hp in *.
  rewrite (all_writes_completed _ _ _ Hall) in *.
  eexists. split; [done|]. rewrite Ho.
  by rewrite progress_notices_counts.
Qed.

End Runs.

(** ** Runs on the sample data *)

Ltac sample_starts :=
  repeat split; try (vm_compute; reflexivity); try discriminate;
  try (vm_compute; discriminate).

(** The scenario of the specification: two messages, the second with a
    caption only. *)
Example scenario_run :
  let r := export_channel_messages int_ascii
             (provider (inr chan) None scenario_history None)
             tme_example out_md blank_line false false sample_world in
  r.1 = Ok tt
  ∧ fs r.2 !! out_md
    = Some (File (str "hello" ++ blank_line ++ str "pic caption" ++ blank_line))
  ∧ fs r.2 !! [str "out"] = Some Dir
  ∧ fs r.2 !! [str "telegram_session.session"] = Some session_db
  ∧ stdout r.2 = [str "Done. Wrote 2 messages to out/channel_export.md"]
  ∧ net r.2 = [ NetStart (str "telegram_session") 12345 sample_api_hash;
                NetGetEntity (str "exampleChan"); NetIterMessages chan;
                NetDisconnect ].
Proof. vm_compute. repeat split; reflexivity. Qed.

Example scenario_run_with_meta :
  let r := export_channel_messages int_ascii
             (provider (inr chan) None scenario_history None)
             tme_example out_md blank_line true false sample_world in
  fs r.2 !! out_md
  = Some (File (str "[id:1 | date:2024-01-01T00:00:00]" ++ [LF] ++ str "hello"
                ++ blank_line
                ++ str "[id:2 | date:2024-01-02T00:00:00]" ++ [LF] ++ str "pic caption"
                ++ blank_line)).
Proof. vm_compute. reflexivity. Qed.

Example isoformat_aware :
  isoformat {| dt_year := 2024; dt_month := 3; dt_day := 9;
               dt_hour := 7; dt_minute := 5; dt_second := 1; dt_microsecond := 250;
               dt_utcoffset := Some 0%Z |}
  = str "2024-03-09T07:05:01.000250+00:00".
Proof. vm_compute. reflexivity. Qed.


Example mixed_history_exported :
  exported mixed_history
  = [ text_message 1 "one"; caption_message 3 "two"; text_message 5 "three" ].
Proof. reflexivity. Qed.



Example three_of_ten :
  let r := export_channel_messages int_ascii failing_provider
             tme_example out_md blank_line false false sample_world in
  r.1 = Raise ConnectionError
  ∧ fs r.2 !! out_md
    = Some (File (str "post" ++ blank_line ++ str "post" ++ blank_line
                  ++ str "post" ++ blank_line))
  ∧ stdout r.2 = [].
Proof. vm_compute. repeat split; reflexivity. Qed.


Lemma early_errors_leave_no_output_witness :
  ∃ x w',
    export_channel_messages int_ascii (provider (inl ValueError) None [] None)
      (str "@nosuchchannel") out_md blank_line false true sample_world
    = (Raise x, w')
    ∧ sinks w' = sinks sample_world
    ∧ stdout w' = stdout sample_world
    ∧ (missing_credentials_in sample_world → w' = sample_world)
    ∧ (∀ y, unresolved int_ascii (provider (inl ValueError) None [] None)
              (str "@nosuchchannel") out_md sample_world y → x = y)
    ∧ (∀ q n, plain_session_file (session_name sample_world) ≠ Some q →
         fs sample_world !! q = Some n → fs w' !! q = Some n)
    ∧ (∀ q n, plain_session_file (session_name sample_world) ≠ Some q →
         fs w' !! q = Some n →
         fs sample_world !! q = Some n ∨ (n = Dir ∧ q `prefix_of` parent out_md))
    ∧ (plain_session_file (session_name sample_world) ≠ Some out_md →
       fs w' !! out_md = fs sample_world !! out_md).
Proof.
  apply (early_errors_leave_no_output int_ascii
           (provider (inl ValueError) None [] None)).
  - reflexivity.
  - right. exists ValueError, 12345%Z, sample_api_hash, sample_started_fs.
    sample_starts.
Defined.

Example missing_credentials_run :
  export_channel_messages int_ascii (provider (inr chan) None scenario_history None)
    tme_example out_md blank_line false false no_credentials_world
  = (Raise (SystemExit missing_credentials), no_credentials_world).
Proof. reflexivity. Qed.

(** C7 as stated fails for resolution errors: the run that cannot resolve
    its channel has already made the parent directory of the output path,
    and the client has written its session file. *)
Lemma early_errors_counterexample :
  let r := export_channel_messages int_ascii (provider (inl ValueError) None [] None)
             (str "@nosuchchannel") out_md blank_line false false sample_world in
  r.1 = Raise ValueError
  ∧ fs sample_world = ∅
  ∧ fs r.2 !! [str "out"] = Some Dir
  ∧ fs r.2 !! [str "telegram_session.session"] = Some session_db
  ∧ fs r.2 !! out_md = None.
Proof. vm_compute. repeat split; reflexivity. Qed.




Example custom_separator_run :
  fs (export_channel_messages int_ascii (provider (inr chan) None mixed_history None)
        tme_example out_md (str "---" ++ [LF]) false false sample_world).2 !! out_md
  = Some (File (str "one---" ++ [LF] ++ str "two---" ++ [LF] ++ str "three---" ++ [LF])).
Proof. vm_compute. reflexivity. Qed.


Lemma unreadable_api_id_raises_value_error_witness :
  export_channel_messages int_ascii (provider (inr chan) None scenario_history None)
    tme_example out_md blank_line false false bad_id_world
  = (Raise ValueError, bad_id_world).
Proof. apply unreadable_api_id_raises_value_error. vm_compute. reflexivity. Defined.

Lemma zero_id_or_empty_key_exits_witness :
  export_channel_messages int_ascii (provider (inr chan) None scenario_history None)
    tme_example out_md blank_line false false zero_id_world
  = (Raise (SystemExit missing_credentials), zero_id_world).
Proof.
  apply (zero_id_or_empty_key_exits int_ascii _ _ _ _ _ _ _ 0%Z).
  - vm_compute. reflexivity.
  - left. reflexivity.
Defined.

Lemma blocked_parent_raises_before_network_witness :
  export_channel_messages int_ascii (provider (inr chan) None scenario_history None)
    tme_example out_md blank_line false false blocked_world
  = (Raise OSError, blocked_world).
Proof.
  apply (blocked_parent_raises_before_network int_ascii _ _ _ _ _ _ _
           12345%Z sample_api_hash [str "out"] (str "not a directory")).
  - sample_starts.
  - exists []. reflexivity.
  - discriminate.
  - vm_compute. reflexivity.
Defined.

Lemma failed_start_ends_the_run_witness :
  ∃ w',
    export_channel_messages int_ascii down_provider
      tme_example out_md blank_line false false sample_world
    = (Raise ConnectionError, w')
    ∧ net w' = net sample_world ++ [NetStart (session_name sample_world) 12345 sample_api_hash]
    ∧ sinks w' = sinks sample_world ∧ stdout w' = stdout sample_world
    ∧ (∀ q, plain_session_file (session_name sample_world) ≠ Some q →
         fs w' !! q = sample_started_fs !! q)
    ∧ (∀ sp, plain_session_file (session_name sample_world) = Some sp →
         ∃ c, fs w' !! sp = Some (File c)).
Proof.
  apply (failed_start_ends_the_run int_ascii down_provider).
  - sample_starts.
  - vm_compute. reflexivity.
  - vm_compute. reflexivity.
  - reflexivity.
Defined.

Example failed_start_run :
  let r := export_channel_messages int_ascii down_provider
             tme_example out_md blank_line false false sample_world in
  r.1 = Raise ConnectionError
  ∧ fs r.2 = {[ [str "out"] := Dir; [str "telegram_session.session"] := session_db ]}
  ∧ net r.2 = [NetStart (str "telegram_session") 12345 sample_api_hash].
Proof. vm_compute. repeat split; reflexivity. Qed.

Lemma directory_as_output_fails_after_resolution_witness :
  ∃ w',
    export_channel_messages int_ascii (provider (inr chan) None scenario_history None)
      tme_example out_md blank_line false true dir_output_world
    = (Raise OSError, w')
    ∧ net w' = net dir_output_world
               ++ [NetStart (session_name dir_output_world) 12345 sample_api_hash;
                   NetGetEntity (parse_channel_identifier tme_example)]
               ++ [NetJoin chan] ++ [NetDisconnect]
    ∧ sinks w' = sinks dir_output_world ∧ stdout w' = stdout dir_output_world
    ∧ ∀ q, plain_session_file (session_name dir_output_world) ≠ Some q →
        fs w' !! q = fs dir_output_world !! q.
Proof.
  apply (directory_as_output_fails_after_resolution int_ascii
           (provider (inr chan) None scenario_history None)
           tme_example out_md blank_line false true dir_output_world
           12345%Z sample_api_hash (fs dir_output_world) chan).
  - sample_starts.
  - vm_compute. reflexivity.
Defined.

Lemma started_session_is_disconnected_witness :
  ∃ r w',
    export_channel_messages int_ascii (provider (inl ValueError) None [] None)
      (str "@nosuchchannel") out_md blank_line false false sample_world
    = (r, w')
    ∧ last (net w') = Some NetDisconnect.
Proof.
  destruct (started_session_is_disconnected int_ascii
              (provider (inl ValueError) None [] None)
              (str "@nosuchchannel") out_md blank_line false false sample_world
              12345%Z sample_api_hash sample_started_fs)
    as (r & w' & Hrun & Hd & _).
  - sample_starts.
  - vm_compute. reflexivity.
  - reflexivity.
  - exists r, w'. split; [exact Hrun|]. apply Hd. vm_compute. reflexivity.
Defined.

(** A directory in the place of the session file, or a file there that is
    no database: the client cannot be constructed, and the run ends before
    the provider is contacted. *)
Example session_file_blocked_run :
  export_channel_messages int_ascii (provider (inr chan) None scenario_history None)
    tme_example export_md blank_line false false session_blocked_world
  = (Raise OperationalError, session_blocked_world)
  ∧ export_channel_messages int_ascii (provider (inr chan) None scenario_history None)
      tme_example export_md blank_line false false session_foreign_world
    = (Raise DatabaseError, session_foreign_world).
Proof. split; vm_compute; reflexivity. Qed.

Lemma run_changes_only_the_output_file_witness :
  ∃ r w',
    export_channel_messages int_ascii (provider (inr chan) None mixed_history None)
      tme_example out_md blank_line false false notes_world
    = (r, w')
    ∧ (∀ q n, q ≠ out_md → plain_session_file (session_name notes_world) ≠ Some q →
         fs notes_world !! q = Some n → fs w' !! q = Some n)
    ∧ (∀ q n, q ≠ out_md → plain_session_file (session_name notes_world) ≠ Some q →
         fs w' !! q = Some n →
         fs notes_world !! q = Some n ∨ (n = Dir ∧ q `prefix_of` parent out_md)).
Proof.
  apply (run_changes_only_the_output_file int_ascii
           (provider (inr chan) None mixed_history None)
           tme_example out_md blank_line false false notes_world
           12345%Z sample_api_hash notes_started_fs chan mixed_history None).
  - sample_starts.
  - vm_compute. reflexivity.
  - reflexivity.
Defined.

Example older_export_is_replaced :
  let r := export_channel_messages int_ascii
             (provider (inr chan) None scenario_history None)
             tme_example out_md blank_line false false notes_world in
  fs r.2
  = {[ [str "notes.txt"] := File (str "keep me");
       [str "out"] := Dir;
       [str "telegram_session.session"] := session_db;
       out_md := File (str "hello" ++ blank_line ++ str "pic caption" ++ blank_line) ]}.
Proof. vm_compute. reflexivity. Qed.

Lemma bare_file_name_untouched_on_resolution_error_witness :
  ∃ w',
    export_channel_messages int_ascii (provider (inl ValueError) None [] None)
      (str "@nosuchchannel") export_md blank_line false false sample_world
    = (Raise ValueError, w')
    ∧ (∀ q, plain_session_file (session_name sample_world) ≠ Some q →
         fs w' !! q = fs sample_world !! q)
    ∧ sinks w' = sinks sample_world
    ∧ stdout w' = stdout sample_world.
Proof.
  apply (bare_file_name_untouched_on_resolution_error int_ascii
           (provider (inl ValueError) None [] None)).
  - exists 12345%Z, sample_api_hash, (fs sample_world). sample_starts.
  - vm_compute. lia.
Defined.


Example partial_file_after_encoding_error :
  let r := export_channel_messages int_ascii
             (provider (inr chan) None surrogate_history None)
             tme_example out_md blank_line true false sample_world in
  r.1 = Raise UnicodeEncodeError
  ∧ fs r.2 !! out_md
    = Some (File (str "[id:1 | date:2024-01-01T00:00:00]" ++ [LF] ++ str "hello"
                  ++ blank_line
                  ++ str "[id:2 | date:2024-01-02T00:00:00]" ++ [LF])).
Proof. vm_compute. split; reflexivity. Qed.

Lemma progress_every_500_messages_witness :
  ∃ w',
    export_channel_messages int_ascii (provider (inr chan) None long_history None)
      tme_example out_md blank_line false false sample_world
    = (Ok tt, w')
    ∧ stdout w'
      = stdout sample_world
        ++ ((λ c, str "Wrote " ++ str (pretty c) ++ str " messages so far" ++ [8230])
            <$> progress_counts (length (exported long_history)))
        ++ [str "Done. Wrote " ++ str (pretty (Z.of_nat (length (exported long_history))))
            ++ str " messages to " ++ path_str out_md].
Proof.
  apply (progress_every_500_messages int_ascii
           (provider (inr chan) None long_history None)
           tme_example out_md blank_line false false sample_world
           12345%Z sample_api_hash sample_started_fs chan long_history).
  - sample_starts.
  - vm_compute. reflexivity.
  - reflexivity.
  - vm_compute. reflexivity.
  - vm_compute. reflexivity.
Defined.

Example long_history_progress :
  stdout (export_channel_messages int_ascii (provider (inr chan) None long_history None)
            tme_example out_md blank_line false false sample_world).2
  = [ str "Wrote 500 messages so far" ++ [8230];
      str "Wrote 1000 messages so far" ++ [8230];
      str "Done. Wrote 1001 messages to out/channel_export.md" ].
Proof. vm_compute. reflexivity. Qed.
